(** * bazelisk.py: version resolution, release cache, artifact location, launch

    A shallow embedding of [src/bazelisk.py] and the properties of its
    specification.

    Modelling conventions.
    - A Python [str] is a [string]; its characters are the code points
      below 256, so [\d] is exactly ['0'..'9'], and [str.lower],
      [str.strip] follow Python 3 on that range.
    - Python values that flow through dynamically typed positions (the
      parsed cache file, the parsed release list) are terms of [value].
    - A raised exception is a term of [exn]; a function that may raise
      returns a [result].
    - Functions that touch the environment, the file system, the clock, the
      network or the child process run in the monad [M] over a [world]
      that also records a [trace] of the external accesses made.
    - Times are IEEE 754 doubles, as Python's [float]: the difference of
      two times is the rounded one.
    - [json.loads], [json.dumps] and [repr] belong to the Python library and
      are parameters of the development.
    - Paths follow [posixpath]. The file system maps absolute paths in
      normal form to their entries, and a path is looked up as it is
      spelled. The paths of a run are built from [os.getcwd()], the home
      directory or [BAZELISK_HOME], taken to be such paths, by joining
      plain names to them. *)

From Stdlib Require Import Strings.Ascii Strings.String.
From Stdlib Require Import NArith QArith Qabs.
From Stdlib Require Import Floats.SpecFloat.
From Stdlib Require Import Sorting.Sorted Sorting.Permutation.
From Stdlib Require Import DecimalString DecimalNat.
From stdpp Require Import base strings list gmap.

Set Warnings "-register-all".

Local Open Scope string_scope.
Local Open Scope list_scope.

(** String concatenation computes under [simpl] when its first argument
    shows a constructor. *)
Arguments String.append !s1 s2 : simpl nomatch.

(** ** Characters and strings *)

Definition chr (n : N) : ascii := ascii_of_N n.
Definition ord (c : ascii) : N := N_of_ascii c.

(** The double quote, kept out of string literals. *)
Definition dquote : string := String (chr 34) EmptyString.
Definition newline : string := String (chr 10) EmptyString.

Definition is_digit (c : ascii) : bool := ((48 <=? ord c) && (ord c <=? 57))%N.
Definition is_lower (c : ascii) : bool := ((97 <=? ord c) && (ord c <=? 122))%N.

(** [str.isspace] on code points below 256. *)
Definition is_space (c : ascii) : bool :=
  let n := ord c in
  (((9 <=? n) && (n <=? 13)) || ((28 <=? n) && (n <=? 32))
   || (n =? 133) || (n =? 160))%N.

(** [str.lower] on one code point below 256: A-Z, and the Latin-1 capitals
    U+00C0..U+00DE without the multiplication sign U+00D7. *)
Definition lower_char (c : ascii) : ascii :=
  let n := ord c in
  if (((65 <=? n) && (n <=? 90))
      || ((192 <=? n) && (n <=? 222) && negb (n =? 215)))%N
  then chr (n + 32) else c.

Fixpoint lower (s : string) : string :=
  match s with
  | EmptyString => EmptyString
  | String c s' => String (lower_char c) (lower s')
  end.

Fixpoint all_chars (p : ascii -> bool) (s : string) : bool :=
  match s with
  | EmptyString => true
  | String c s' => p c && all_chars p s'
  end.

(** The first character satisfies [p]. *)
Definition head_is (p : ascii -> bool) (s : string) : bool :=
  match s with
  | EmptyString => false
  | String c _ => p c
  end.

(** Drops the leading characters that satisfy [p]. *)
Fixpoint lstrip_with (p : ascii -> bool) (s : string) : string :=
  match s with
  | EmptyString => EmptyString
  | String c s' => if p c then lstrip_with p s' else s
  end.

(** Drops the trailing characters that satisfy [p]. *)
Fixpoint rstrip_with (p : ascii -> bool) (s : string) : string :=
  match s with
  | EmptyString => EmptyString
  | String c s' =>
      match rstrip_with p s' with
      | EmptyString => if p c then EmptyString else String c EmptyString
      | r => String c r
      end
  end.

(** [str.strip()] *)
Definition strip (s : string) : string :=
  rstrip_with is_space (lstrip_with is_space s).

Fixpoint last_is (p : ascii -> bool) (s : string) : bool :=
  match s with
  | EmptyString => false
  | String c EmptyString => p c
  | String _ s' => last_is p s'
  end.

Fixpoint startswith (s p : string) {struct p} : bool :=
  match p, s with
  | EmptyString, _ => true
  | String a p', String b s' => if Ascii.eqb a b then startswith s' p' else false
  | String _ _, EmptyString => false
  end.

(** [needle in hay] on strings. *)
Fixpoint str_in (needle hay : string) : bool :=
  startswith hay needle
  || match hay with
     | EmptyString => false
     | String _ hay' => str_in needle hay'
     end.

(** [int(s)] on a string of decimal digits. *)
Definition digit_val (c : ascii) : nat := N.to_nat (ord c - 48).

Fixpoint int_acc (acc : nat) (s : string) : nat :=
  match s with
  | EmptyString => acc
  | String c s' => int_acc (10 * acc + digit_val c) s'
  end.

Definition int_of_digits (s : string) : nat := int_acc 0 s.

(** [str(n)], also what ['{}'.format(n)] prints, for a non-negative [int]. *)
Definition str_of_nat (n : nat) : string :=
  NilEmpty.string_of_uint (Nat.to_uint n).

(** ** Values and exceptions *)

Inductive value : Type :=
| VNone
| VBool (b : bool)
| VNum (q : Q)
| VStr (s : string)
| VList (l : list value)
| VDict (kv : list (string * value)).

(** Truth value of an object, as [if x] and [not x] see it. *)
Definition truthy (v : value) : bool :=
  match v with
  | VNone => false
  | VBool b => b
  | VNum q => negb (Qeq_bool q 0)
  | VStr s => negb (String.eqb s EmptyString)
  | VList l => match l with [] => false | _ => true end
  | VDict kv => match kv with [] => false | _ => true end
  end.

Inductive exn : Type :=
| Exception (msg : string)
| AttributeError
| TypeError
| KeyError
| IndexError
| ValueError
| OSError
| FileExistsError
| URLError
| KeyboardInterrupt.

(** [isinstance(e, OSError)]: [OSError] stands for the errors of the
    operating system that the code does not tell apart; [FileExistsError]
    and, in Python 3, [URLError] are subclasses. *)
Definition is_OSError (e : exn) : bool :=
  match e with
  | OSError | FileExistsError | URLError => true
  | _ => false
  end.

Inductive result (A : Type) : Type :=
| Ok (a : A)
| Raise (e : exn).
Arguments Ok {A} a.
Arguments Raise {A} e.

Definition rbind {A B} (r : result A) (f : A -> result B) : result B :=
  match r with
  | Ok a => f a
  | Raise e => Raise e
  end.

(** ** Regular expressions: the fragment of [re] the program uses *)

Module Re.

Inductive charset : Type :=
| CsChar (c : ascii)
| CsDigit.

Definition cs_mem (cs : charset) (c : ascii) : bool :=
  match cs with
  | CsChar a => Ascii.eqb a c
  | CsDigit => is_digit c
  end.

Inductive regex : Type :=
| RSet (cs : charset)                 (* one character of the set *)
| RStar (cs : charset)                (* cs*, greedy *)
| RSeq (r1 r2 : regex)
| ROpt (r : regex)                    (* r?, greedy *)
| RGroup (name : string) (r : regex)  (* capturing group *)
| RBos                                (* ^ *)
| REos                                (* $ *)
| REps.

(** Captured groups, most recent first. *)
Definition captures := list (string * string).

Fixpoint group (g : string) (caps : captures) : option string :=
  match caps with
  | [] => None
  | (g', s) :: caps' => if String.eqb g g' then Some s else group g caps'
  end.

(** The text consumed between the input [s] and its suffix [s']. *)
Definition consumed (s s' : string) : string :=
  substring 0 (String.length s - String.length s') s.

(** [$] without MULTILINE: at the end of the string, or just before a
    newline that ends the string. *)
Definition at_eos (s : string) : bool :=
  String.eqb s EmptyString || String.eqb s newline.

(** Greedy repetition of a character set with backtracking: the longest
    run first, then shorter ones, until the continuation succeeds. *)
Fixpoint star {A} (cs : charset) (s : string) (k : string -> option A)
  : option A :=
  match s with
  | String c s' =>
      if cs_mem cs c
      then match star cs s' k with
           | Some r => Some r
           | None => k s
           end
      else k s
  | EmptyString => k s
  end.

(** Backtracking matcher in continuation-passing style; [n] is the length
    of the whole subject, so that [length s = n] holds at its start only. *)
Fixpoint rx (n : nat) (r : regex) (s : string) (caps : captures)
  (k : string -> captures -> option captures) : option captures :=
  match r with
  | RSet cs =>
      match s with
      | String c s' => if cs_mem cs c then k s' caps else None
      | EmptyString => None
      end
  | RStar cs => star cs s (fun s' => k s' caps)
  | RSeq r1 r2 => rx n r1 s caps (fun s' caps' => rx n r2 s' caps' k)
  | ROpt r1 =>
      match rx n r1 s caps k with
      | Some res => Some res
      | None => k s caps
      end
  | RGroup g r1 =>
      rx n r1 s caps (fun s' caps' => k s' ((g, consumed s s') :: caps'))
  | RBos => if Nat.eqb (String.length s) n then k s caps else None
  | REos => if at_eos s then k s caps else None
  | REps => k s caps
  end.

(** [re.match(r, v)]: anchored at the start, free at the end. *)
Definition re_match (r : regex) (v : string) : option captures :=
  rx (String.length v) r v [] (fun _ caps => Some caps).

(** [re.fullmatch(r, v)]: the whole subject is taken. *)
Definition re_fullmatch (r : regex) (v : string) : option captures :=
  rx (String.length v) r v []
    (fun s' caps => if String.eqb s' EmptyString then Some caps else None).

(** Names of the capturing groups, in the order of their opening
    parenthesis. *)
Fixpoint group_names (r : regex) : list string :=
  match r with
  | RSeq r1 r2 => group_names r1 ++ group_names r2
  | ROpt r1 => group_names r1
  | RGroup g r1 => g :: group_names r1
  | _ => []
  end.

(** [m.groups()] *)
Definition groups (r : regex) (m : captures) : list (option string) :=
  map (fun g => group g m) (group_names r).

Definition lit_char (c : ascii) : regex := RSet (CsChar c).

Fixpoint lit (s : string) : regex :=
  match s with
  | EmptyString => REps
  | String c s' => RSeq (lit_char c) (lit s')
  end.

Definition digit : regex := RSet CsDigit.
Definition digits0 : regex := RStar CsDigit.               (* \d* *)
Definition digits1 : regex := RSeq digit digits0.          (* \d+ *)

(** What it means for [r] to take the input from [s] to the suffix [s'],
    independently of the search order and of the captures. *)
Fixpoint takes (n : nat) (r : regex) (s s' : string) : Prop :=
  match r with
  | RSet cs => exists c, s = String c s' /\ cs_mem cs c = true
  | RStar cs => exists run, s = run +:+ s' /\ all_chars (cs_mem cs) run = true
  | RSeq r1 r2 => exists mid, takes n r1 s mid /\ takes n r2 mid s'
  | ROpt r1 => s' = s \/ takes n r1 s s'
  | RGroup _ r1 => takes n r1 s s'
  | RBos => s' = s /\ String.length s = n
  | REos => s' = s /\ at_eos s = true
  | REps => s' = s
  end.

End Re.

(** ** The outside world *)

(** *** Times *)

(** A Python [float] is an IEEE 754 double (53 bits of precision, the
    exponent of the infinities 1024). [time.time()] and [os.path.getmtime]
    return seconds as doubles. *)
Definition float : Type := spec_float.

(** [x - y], rounded to the nearest double, ties to even. *)
Definition float_sub (x y : float) : float := SFsub 53 1024 x y.

(** [abs(x)] *)
Definition float_abs (x : float) : float := SFabs x.

(** [float(z)]: the double nearest to the integer; exact up to [2^53]. *)
Definition float_of_int (z : Z) : float := binary_normalize 53 1024 z 0 false.

(** [x < z] for a float and an int the doubles hold exactly, as 3600:
    false when [x] is not a number. *)
Definition float_lt_int (x : float) (z : Z) : bool :=
  SFltb x (float_of_int z).

(** A file-system entry: a directory, or a regular file with its contents,
    modification time (seconds) and permission bits. *)
Inductive node : Type :=
| NDir (mtime : float)
| NFile (content : string) (mtime : float) (mode : N).

(** External accesses, in the order they are made. *)
Inductive event : Type :=
| EvExists (path : string)
| EvIsdir (path : string)
| EvGetmtime (path : string)
| EvRead (path : string)
| EvWrite (path : string)
| EvChmod (path : string) (mode : N)
| EvMakedirs (path : string)
| EvUrlopen (url : string)
| EvStderr (text : string)
| EvPopen (args : list string) (close_fds : bool)
| EvWait.

Record world : Type := mkWorld {
  environ : gmap string string;   (* os.environ *)
  cwd : string;                   (* os.getcwd() *)
  home : string;                  (* os.path.expanduser('~') *)
  fs : gmap string node;          (* the file system, by path *)
  now : float;                    (* time.time() *)
  web : gmap string string;       (* body served at a URL *)
  machine : string;               (* platform.machine() *)
  system : string;                (* platform.system() *)
  os_name : string;               (* os.name *)
  sys_argv : list string;         (* sys.argv *)
  executable : string -> N -> bool;
                                  (* whether the system starts a program from
                                     a file of these contents and mode *)
  interrupts : nat;               (* KeyboardInterrupts that will hit p.wait() *)
  child_status : result Z;        (* what p.wait() yields once undisturbed *)
  trace : list event
}.

Definition set_fs (f : gmap string node) (w : world) : world :=
  mkWorld (environ w) (cwd w) (home w) f (now w) (web w) (machine w)
    (system w) (os_name w) (sys_argv w) (executable w) (interrupts w)
    (child_status w) (trace w).

Definition set_interrupts (n : nat) (w : world) : world :=
  mkWorld (environ w) (cwd w) (home w) (fs w) (now w) (web w) (machine w)
    (system w) (os_name w) (sys_argv w) (executable w) n (child_status w)
    (trace w).

Definition set_trace (t : list event) (w : world) : world :=
  mkWorld (environ w) (cwd w) (home w) (fs w) (now w) (web w) (machine w)
    (system w) (os_name w) (sys_argv w) (executable w) (interrupts w)
    (child_status w) t.

(** ** The monad of effectful code: state passing with exceptions *)

Definition M (A : Type) : Type := world -> result A * world.

Definition ret {A} (a : A) : M A := fun w => (Ok a, w).
Definition raise {A} (e : exn) : M A := fun w => (Raise e, w).

Definition bind {A B} (m : M A) (f : A -> M B) : M B :=
  fun w =>
    match m w with
    | (Ok a, w') => f a w'
    | (Raise e, w') => (Raise e, w')
    end.

(** [try: m except: h] *)
Definition try_except {A} (m : M A) (h : exn -> M A) : M A :=
  fun w =>
    match m w with
    | (Ok a, w') => (Ok a, w')
    | (Raise e, w') => h e w'
    end.

Definition lift {A} (r : result A) : M A := fun w => (r, w).
Definition gets {A} (f : world -> A) : M A := fun w => (Ok (f w), w).
Definition log (e : event) : M unit :=
  fun w => (Ok tt, set_trace (trace w ++ [e]) w).

Arguments bind {A B} m f w /.
Arguments ret {A} a w /.
Arguments raise {A} e w /.
Arguments lift {A} r w /.
Arguments gets {A} f w /.
Arguments log e w /.
Arguments try_except {A} m h w /.

Declare Scope m_scope.
Delimit Scope m_scope with M.
Notation "'let*' x ':=' m 'in' k" := (bind m (fun x => k))
  (at level 10, x name, m at level 100, k at level 200) : m_scope.
Notation "m ';;' k" := (bind m (fun _ => k))
  (at level 100, k at level 200, right associativity) : m_scope.
Local Open Scope m_scope.

(** *** Primitives of [os], [os.path], [time], [platform], [urllib] *)

Definition os_path_exists (path : string) : M bool :=
  log (EvExists path);;
  let* f := gets fs in
  ret (bool_decide (is_Some (f !! path))).

Definition os_path_isdir (path : string) : M bool :=
  log (EvIsdir path);;
  let* f := gets fs in
  ret (match f !! path with Some (NDir _) => true | _ => false end).

Definition os_path_getmtime (path : string) : M float :=
  log (EvGetmtime path);;
  let* f := gets fs in
  match f !! path with
  | Some (NDir t) => ret t
  | Some (NFile _ t _) => ret t
  | None => raise OSError
  end.

(** [with open(path, 'r') as f: f.read()] *)
Definition read_file (path : string) : M string :=
  log (EvRead path);;
  let* f := gets fs in
  match f !! path with
  | Some (NFile data _ _) => ret data
  | _ => raise OSError
  end.

(** [with open(path, 'w') as f: f.write(data)]: creates the file or
    truncates it, keeping the permission bits of an existing file. The
    directory that holds it is taken to exist (main creates it). *)
Definition write_file (path : string) (data : string) : M unit :=
  log (EvWrite path);;
  let* f := gets fs in
  let* t := gets now in
  match f !! path with
  | Some (NDir _) => raise OSError
  | Some (NFile _ _ m) => fun w => (Ok tt, set_fs (<[path := NFile data t m]> f) w)
  | None => fun w => (Ok tt, set_fs (<[path := NFile data t 420%N]> f) w)
  end.

Definition os_chmod (path : string) (m : N) : M unit :=
  log (EvChmod path m);;
  let* f := gets fs in
  match f !! path with
  | Some (NDir t) => ret tt
  | Some (NFile d t _) => fun w => (Ok tt, set_fs (<[path := NFile d t m]> f) w)
  | None => raise OSError
  end.

(** [urlopen(url).read()] *)
Definition urlopen_read (url : string) : M string :=
  log (EvUrlopen url);;
  let* pages := gets web in
  match pages !! url with
  | Some body => ret body
  | None => raise URLError
  end.

Definition is_slash (c : ascii) : bool := Ascii.eqb c "/"%char.

(** [p[:p.rfind('/') + 1]] *)
Fixpoint upto_last_slash (p : string) : string :=
  match p with
  | EmptyString => EmptyString
  | String c p' =>
      match upto_last_slash p' with
      | EmptyString => if is_slash c then String c EmptyString else EmptyString
      | h => String c h
      end
  end.

(** [posixpath.dirname] *)
Definition os_path_dirname (p : string) : string :=
  let head := upto_last_slash p in
  if negb (String.eqb head EmptyString) && negb (all_chars is_slash head)
  then rstrip_with is_slash head
  else head.

(** [p[p.rfind('/') + 1:]] *)
Fixpoint after_last_slash (p : string) : string :=
  match p with
  | EmptyString => EmptyString
  | String c p' =>
      match upto_last_slash p' with
      | EmptyString => if is_slash c then p' else p
      | _ => after_last_slash p'
      end
  end.

(** [posixpath.split]: the head is what [dirname] returns. *)
Definition os_path_split (p : string) : string * string :=
  (os_path_dirname p, after_last_slash p).

(** [posixpath.join(a, b)] for two components. *)
Definition os_path_join (a b : string) : string :=
  if head_is is_slash b then b
  else if String.eqb a EmptyString || last_is is_slash a then a +:+ b
  else a +:+ "/" +:+ b.

(** *** [os.mkdir] and [os.makedirs] *)

(** The [head] and [tail] that [os.makedirs] works with: those of [split],
    taken once more from the head when the name ends in a slash. *)
Definition makedirs_split (name : string) : string * string :=
  let (head, tail) := os_path_split name in
  if String.eqb tail EmptyString then os_path_split head else (head, tail).

(** [os.mkdir(name)]: the name must be free, and the directory that is to
    hold it (the current directory for a name without a slash) must be
    there. The errors other than [FileExistsError] are [FileNotFoundError]
    and [NotADirectoryError]. The times of the directories above are not
    followed. *)
Definition os_mkdir (name : string) : M unit :=
  fun w =>
    let head := fst (makedirs_split name) in
    let holder := if String.eqb head EmptyString then cwd w else head in
    if String.eqb name EmptyString then (Raise OSError, w)
    else
      match fs w !! name with
      | Some _ => (Raise FileExistsError, w)
      | None =>
          match fs w !! holder with
          | Some (NDir _) =>
              (Ok tt, set_fs (<[name := NDir (now w)]> (fs w)) w)
          | _ => (Raise OSError, w)
          end
      end.

(** The recursion of [os.makedirs], at most [fuel] levels up: a missing
    head is made first, with its own missing heads. *)
Fixpoint makedirs_from (fuel : nat) (name : string) : M unit :=
  let (head, tail) := makedirs_split name in
  let* f := gets fs in
  if negb (String.eqb head EmptyString) && negb (String.eqb tail EmptyString)
     && negb (bool_decide (is_Some (f !! head)))
  then
    match fuel with
    | S fuel' =>
        try_except (makedirs_from fuel' head)
          (fun e =>
             match e with
             | FileExistsError => ret tt
             | _ => raise e
             end);;
        if String.eqb tail "." then ret tt else os_mkdir name
    | O => os_mkdir name
    end
  else os_mkdir name.

(** [os.makedirs(path)]; every head is shorter than its name, so the
    length of the path bounds the depth. *)
Definition os_makedirs (path : string) : M unit :=
  log (EvMakedirs path);;
  makedirs_from (String.length path) path.

(** ** [distutils.version.LooseVersion] *)

Module LooseVersion.

Inductive component : Type :=
| CInt (n : nat)
| CStr (s : string).

(** The alternatives of [component_re = (\d+ | [a-z]+ | \.)], and the text
    between two matches. *)
Inductive cclass : Type := KDigit | KLower | KDot | KOther.

Definition classify (c : ascii) : cclass :=
  if is_digit c then KDigit
  else if is_lower c then KLower
  else if Ascii.eqb c "."%char then KDot
  else KOther.

(** Two adjacent characters belong to one piece of the split. *)
Definition same_piece (k k' : cclass) : bool :=
  match k, k' with
  | KDigit, KDigit | KLower, KLower | KOther, KOther => true
  | _, _ => false
  end.

(** [component_re.split(vstring)] without its empty pieces: the maximal
    runs of digits, of lower-case letters and of other characters, and
    every single dot. *)
Fixpoint split (s : string) : list (cclass * string) :=
  match s with
  | EmptyString => []
  | String c s' =>
      let k := classify c in
      match split s' with
      | (k', run) :: rest =>
          if same_piece k k' then (k, String c run) :: rest
          else (k, String c EmptyString) :: (k', run) :: rest
      | [] => [(k, String c EmptyString)]
      end
  end.

(** [parse]: the dots are dropped, [int] succeeds on the digit runs. *)
Fixpoint components (pieces : list (cclass * string)) : list component :=
  match pieces with
  | [] => []
  | (KDot, _) :: rest => components rest
  | (KDigit, run) :: rest => CInt (int_of_digits run) :: components rest
  | (_, run) :: rest => CStr run :: components rest
  end.

Definition parse (vstring : string) : list component :=
  components (split vstring).

(** An instance: [__init__] parses a truthy argument only, and leaves the
    object without [vstring] and [version] otherwise. *)
Inductive t : Type :=
| Unparsed
| Parsed (vstring : string) (version : list component).

Definition make (v : value) : result t :=
  if truthy v
  then match v with
       | VStr s => Ok (Parsed s (parse s))
       | _ => Raise TypeError
       end
  else Ok Unparsed.

(** [__str__] *)
Definition str (v : t) : result string :=
  match v with
  | Parsed s _ => Ok s
  | Unparsed => Raise AttributeError
  end.

(** Code-point order on [str]. *)
Fixpoint str_lt (a b : string) : bool :=
  match a, b with
  | _, EmptyString => false
  | EmptyString, String _ _ => true
  | String x a', String y b' =>
      if (ord x <? ord y)%N then true
      else if (ord x =? ord y)%N then str_lt a' b'
      else false
  end.

Definition comp_eq (x y : component) : bool :=
  match x, y with
  | CInt m, CInt n => Nat.eqb m n
  | CStr s, CStr t => String.eqb s t
  | _, _ => false
  end.

(** [x < y]: an [int] and a [str] do not compare. *)
Definition comp_lt (x y : component) : result bool :=
  match x, y with
  | CInt m, CInt n => Ok (Nat.ltb m n)
  | CStr s, CStr t => Ok (str_lt s t)
  | _, _ => Raise TypeError
  end.

Fixpoint list_eq (a b : list component) : bool :=
  match a, b with
  | [], [] => true
  | x :: a', y :: b' => comp_eq x y && list_eq a' b'
  | _, _ => false
  end.

(** [a < b] on lists: decided at the first index where the items differ. *)
Fixpoint list_lt (a b : list component) : result bool :=
  match a, b with
  | x :: a', y :: b' => if comp_eq x y then list_lt a' b' else comp_lt x y
  | [], _ :: _ => Ok true
  | _, [] => Ok false
  end.

(** [a > b] on lists. *)
Fixpoint list_gt (a b : list component) : result bool :=
  match a, b with
  | x :: a', y :: b' => if comp_eq x y then list_gt a' b' else comp_lt y x
  | _ :: _, [] => Ok true
  | [], _ => Ok false
  end.

(** [_cmp]: 0, -1 or 1, or [None] when none of the three tests holds. *)
Definition cmp (self other : t) : result (option Z) :=
  match self, other with
  | Parsed _ v1, Parsed _ v2 =>
      if list_eq v1 v2 then Ok (Some 0%Z)
      else rbind (list_lt v1 v2) (fun b =>
        if b then Ok (Some (-1)%Z)
        else rbind (list_gt v1 v2) (fun b' =>
          if b' then Ok (Some 1%Z) else Ok None))
  | _, _ => Raise AttributeError
  end.

(** [__lt__] *)
Definition lt (self other : t) : result bool :=
  rbind (cmp self other) (fun c =>
    match c with
    | Some z => Ok (z <? 0)%Z
    | None => Raise TypeError
    end).

End LooseVersion.

(** ** Built-ins *)

(** [sorted(l, reverse=True)] for a comparison that may raise: a stable
    sort by [<] into descending order (items that compare equal keep their
    original order). Python sorts with Timsort; this is the insertion sort
    with the same result on lists whose items all compare, and it raises
    when a comparison it makes raises. *)
Fixpoint insert_desc {A} (lt : A -> A -> result bool) (x : A) (l : list A)
  : result (list A) :=
  match l with
  | [] => Ok [x]
  | y :: l' =>
      rbind (lt x y) (fun b =>
        if b then rbind (insert_desc lt x l') (fun r => Ok (y :: r))
        else Ok (x :: l))
  end.

Fixpoint sorted_reverse {A} (lt : A -> A -> result bool) (l : list A)
  : result (list A) :=
  match l with
  | [] => Ok []
  | x :: l' => rbind (sorted_reverse lt l') (insert_desc lt x)
  end.

(** [[f(x) for x in l]] for an [f] that may raise. *)
Fixpoint map_result {A B} (f : A -> result B) (l : list A) : result (list B) :=
  match l with
  | [] => Ok []
  | x :: l' =>
      rbind (f x) (fun y => rbind (map_result f l') (fun ys => Ok (y :: ys)))
  end.

Fixpoint assoc (key : string) (kv : list (string * value)) : option value :=
  match kv with
  | [] => None
  | (k, v) :: kv' => if String.eqb key k then Some v else assoc key kv'
  end.

(** [v[key]] for a string key. *)
Definition getitem (v : value) (key : string) : result value :=
  match v with
  | VDict kv =>
      match assoc key kv with
      | Some x => Ok x
      | None => Raise KeyError
      end
  | _ => Raise TypeError
  end.

Fixpoint chars (s : string) : list value :=
  match s with
  | EmptyString => []
  | String c s' => VStr (String c EmptyString) :: chars s'
  end.

(** The items [for x in v] goes through. *)
Definition iter (v : value) : result (list value) :=
  match v with
  | VList l => Ok l
  | VStr s => Ok (chars s)
  | VDict kv => Ok (map (fun p => VStr (fst p)) kv)
  | _ => Raise TypeError
  end.

(** [len(v)] *)
Definition len (v : value) : result nat :=
  match v with
  | VList l => Ok (length l)
  | VStr s => Ok (String.length s)
  | VDict kv => Ok (length kv)
  | _ => Raise TypeError
  end.

(** [v[i]] for an index [i] with [0 <= i < len(v)]; the keys of a parsed
    JSON object are strings, so an integer is never among them. *)
Definition getindex (v : value) (i : nat) : result value :=
  match v with
  | VList l =>
      match l !! i with
      | Some x => Ok x
      | None => Raise IndexError
      end
  | VStr s =>
      match String.get i s with
      | Some c => Ok (VStr (String c EmptyString))
      | None => Raise IndexError
      end
  | VDict _ => Raise KeyError
  | _ => Raise TypeError
  end.

(** [subprocess.Popen(args, close_fds=...)]: the program must be a regular
    file that the operating system accepts to start; otherwise the call
    raises ([FileNotFoundError], [PermissionError], or [OSError] for a
    format the system cannot run). *)
Definition popen (args : list string) (close_fds : bool) : M unit :=
  log (EvPopen args close_fds);;
  let* f := gets fs in
  let* runs := gets executable in
  match args with
  | prog :: _ =>
      match f !! prog with
      | Some (NFile content _ mode) =>
          if runs content mode then ret tt else raise OSError
      | _ => raise OSError
      end
  | [] => raise IndexError
  end.

(** [p.wait()]: interrupted as long as interrupts are pending, then the
    status of the child. *)
Definition p_wait : M Z :=
  log EvWait;;
  fun w =>
    match interrupts w with
    | S n => (Raise KeyboardInterrupt, set_interrupts n w)
    | O => (child_status w, w)
    end.

(** ** The program *)

Section Bazelisk.

(** [json.loads] ([None] when it raises), [json.dumps], and [repr] for
    what [format] prints of a value that is not a string. *)
Variable json_loads : string -> option value.
Variable json_dumps : value -> string.
Variable repr : value -> string.

Definition loads (s : string) : M value :=
  match json_loads s with
  | Some v => ret v
  | None => raise ValueError
  end.

(** ['{}'.format(v)] *)
Definition fmt (v : value) : string :=
  match v with
  | VStr s => s
  | _ => repr v
  end.

Definition ONE_HOUR : Z := 1 * 60 * 60.

(** [re.compile(r'latest(-(?P<offset>\d+))?$')] *)
Definition LATEST_PATTERN : Re.regex :=
  Re.RSeq (Re.lit "latest")
    (Re.RSeq
       (Re.ROpt (Re.RGroup "1"
          (Re.RSeq (Re.lit_char "-") (Re.RGroup "offset" Re.digits1))))
       Re.REos).

Definition BAZEL_RELEASES_URL : string :=
  "https://api.github.com/repos/bazelbuild/bazel/releases".

(** *** The four errors the program raises itself *)

Definition InvalidVersionLabel (version : string) : exn :=
  Exception
    ("Invalid version " +:+ dquote +:+ version +:+ dquote
     +:+ ". In addition to using a version number such as "
     +:+ dquote +:+ "0.20.0" +:+ dquote
     +:+ ", you can use values such as "
     +:+ dquote +:+ "latest" +:+ dquote +:+ " and "
     +:+ dquote +:+ "latest-N" +:+ dquote
     +:+ ", with N being a non-negative integer.").

(** The label the message names: ["latest"] for offset 0. *)
Definition offset_label (offset : nat) : string :=
  match offset with
  | O => "latest"
  | _ => "latest-" +:+ str_of_nat offset
  end.

Definition VersionOffsetOutOfRange (offset releases : nat) : exn :=
  Exception
    ("Cannot resolve version " +:+ dquote +:+ offset_label offset +:+ dquote
     +:+ ": There are only " +:+ str_of_nat releases +:+ " Bazel releases.").

Definition UnsupportedArchitecture (machine : string) : exn :=
  Exception
    ("Unsupported machine architecture " +:+ dquote +:+ machine +:+ dquote
     +:+ ". Bazel currently only supports x86_64.").

Definition UnsupportedOperatingSystem (operating_system : string) : exn :=
  Exception
    ("Unsupported operating system " +:+ dquote +:+ operating_system
     +:+ dquote
     +:+ ". Bazel currently only supports Linux, macOS and Windows.").

(** *** Version selection *)

(** The recursion of [find_workspace_root], at most [fuel] levels up. *)
Fixpoint find_workspace_root_from (fuel : nat) (root : string)
  : M (option string) :=
  let* found := os_path_exists (os_path_join root "WORKSPACE") in
  if found then ret (Some root)
  else
    let new_root := os_path_dirname root in
    if negb (String.eqb new_root root)
    then match fuel with
         | S fuel' => find_workspace_root_from fuel' new_root
         | O => ret None
         end
    else ret None.

(** Every level up shortens the path, so its length bounds the depth. *)
Definition find_workspace_root (root : option string) : M (option string) :=
  let* root := match root with
               | None => gets cwd
               | Some r => ret r
               end in
  find_workspace_root_from (String.length root) root.

Definition decide_which_bazel_version_to_use : M string :=
  let* env := gets environ in
  match env !! "USE_BAZEL_VERSION" with
  | Some v => ret v
  | None =>
      let* workspace_root := find_workspace_root None in
      let* pinned :=
        match workspace_root with
        | Some root =>
            if negb (String.eqb root EmptyString)
            then
              let bazelversion_path := os_path_join root ".bazelversion" in
              let* there := os_path_exists bazelversion_path in
              if there
              then let* text := read_file bazelversion_path in
                   ret (Some (strip text))
              else ret None
            else ret None
        | None => ret None
        end in
      match pinned with
      | Some v => ret v
      | None => ret "latest"
      end
  end.

(** *** Release history *)

(** One step of the generator inside [sorted]: the releases that are not
    pre-releases, as [LooseVersion]s. *)
Fixpoint release_versions (releases : list value)
  : result (list LooseVersion.t) :=
  match releases with
  | [] => Ok []
  | release :: rest =>
      rbind (getitem release "prerelease") (fun pre =>
        if negb (truthy pre)
        then rbind (getitem release "tag_name") (fun tag =>
               rbind (LooseVersion.make tag) (fun v =>
                 rbind (release_versions rest) (fun vs => Ok (v :: vs))))
        else release_versions rest)
  end.

Definition get_version_history_from_github : M value :=
  let* res := urlopen_read BAZEL_RELEASES_URL in
  let* listing := loads res in
  let* releases := lift (iter listing) in
  let* versions := lift (release_versions releases) in
  let* ordered := lift (sorted_reverse LooseVersion.lt versions) in
  let* names := lift (map_result LooseVersion.str ordered) in
  ret (VList (map VStr names)).

Definition get_version_history (bazelisk_directory : string) : M value :=
  let latest_cache := os_path_join bazelisk_directory "latest_bazel" in
  let* cached :=
    (let* there := os_path_exists latest_cache in
     if there
     then
       let* t := gets now in
       let* mt := os_path_getmtime latest_cache in
       if float_lt_int (float_abs (float_sub t mt)) ONE_HOUR
       then let* text := read_file latest_cache in
            let* history := loads (strip text) in
            ret (Some history)
       else ret None
     else ret None) in
  match cached with
  | Some history => ret history
  | None =>
      let* history := get_version_history_from_github in
      write_file latest_cache (json_dumps history);;
      ret history
  end.

Definition resolve_latest_version (version_history : value) (offset : nat)
  : result value :=
  rbind (len version_history) (fun n =>
    if Nat.leb n offset
    then Raise (VersionOffsetOutOfRange offset n)
    else getindex version_history offset).

(** [x or d] for an optional string. *)
Definition or_else (x : option string) (d : string) : string :=
  match x with
  | Some s => if String.eqb s EmptyString then d else s
  | None => d
  end.

Definition resolve_version_label_to_number
  (bazelisk_directory version : string) : M value :=
  if str_in "latest" version
  then
    match Re.re_match LATEST_PATTERN version with
    | None => raise (InvalidVersionLabel version)
    | Some m =>
        let* history := get_version_history bazelisk_directory in
        let offset := int_of_digits (or_else (Re.group "offset" m) "0") in
        lift (resolve_latest_version history offset)
    end
  else ret (VStr version).

(** *** Binary location *)

Definition normalized_machine_arch_name : M string :=
  let* m := gets machine in
  let machine := lower m in
  if String.eqb machine "amd64" then ret "x86_64" else ret machine.

Definition determine_bazel_filename (version : value) : M string :=
  let* machine := normalized_machine_arch_name in
  if negb (String.eqb machine "x86_64")
  then raise (UnsupportedArchitecture machine)
  else
    let* sys := gets system in
    let operating_system := lower sys in
    if negb (bool_decide (operating_system ∈ ["linux"; "darwin"; "windows"]))
    then raise (UnsupportedOperatingSystem operating_system)
    else
      let filename_ending :=
        if String.eqb operating_system "windows" then ".exe" else EmptyString in
      ret ("bazel-" +:+ fmt version +:+ "-" +:+ operating_system +:+ "-"
           +:+ machine +:+ filename_ending).

(** The pattern of [determine_url]: group 1 is [\d* \. \d*] followed by an
    optional, non-capturing [\. \d*]; group 2, optional, is [rc\d]. *)
Definition URL_PATTERN : Re.regex :=
  Re.RSeq
    (Re.RGroup "1"
       (Re.RSeq Re.digits0
          (Re.RSeq (Re.lit_char ".")
             (Re.RSeq Re.digits0
                (Re.ROpt (Re.RSeq (Re.lit_char ".") Re.digits0))))))
    (Re.ROpt (Re.RGroup "2" (Re.RSeq (Re.lit "rc") Re.digit))).

(** What [format] prints of a group: its text, or [None]. *)
Definition fmt_group (g : option string) : string :=
  match g with
  | Some s => s
  | None => "None"
  end.

Definition determine_url (version : value) (bazel_filename : string)
  : result string :=
  match version with
  | VStr v =>
      match Re.re_match URL_PATTERN v with
      | None => Raise AttributeError
      | Some m =>
          match Re.groups URL_PATTERN m with
          | [version; rc] =>
              Ok ("https://releases.bazel.build/" +:+ fmt_group version
                  +:+ "/"
                  +:+ (if negb (String.eqb (or_else rc EmptyString) EmptyString)
                       then fmt_group rc else "release")
                  +:+ "/" +:+ bazel_filename)
          | _ => Raise ValueError
          end
      end
  | _ => Raise TypeError
  end.

(** *** Fetching *)

Definition download_bazel_into_directory (version : value)
  (directory : string) : M string :=
  let* bazel_filename := determine_bazel_filename version in
  let* url := lift (determine_url version bazel_filename) in
  let destination_path := os_path_join directory bazel_filename in
  let* there := os_path_exists destination_path in
  (if negb there
   then
     log (EvStderr ("Downloading " +:+ url +:+ "..." +:+ newline));;
     let* body := urlopen_read url in
     write_file destination_path body
   else ret tt);;
  os_chmod destination_path 493%N;;
  ret destination_path.

Definition maybe_makedirs (path : string) : M unit :=
  try_except (os_makedirs path)
    (fun e =>
       if is_OSError e
       then let* d := os_path_isdir path in
            if negb d then raise e else ret tt
       else raise e).

(** *** Launching *)

(** [while True: try: return p.wait() except KeyboardInterrupt: pass],
    for at most [S fuel] rounds; [None] while the loop is still waiting. *)
Fixpoint wait_loop (fuel : nat) : M (option Z) :=
  try_except (let* code := p_wait in ret (Some code))
    (fun e =>
       match e with
       | KeyboardInterrupt =>
           match fuel with
           | S fuel' => wait_loop fuel'
           | O => ret None
           end
       | _ => raise e
       end).

Definition execute_bazel (fuel : nat) (bazel_path : string)
  (argv : list string) : M (option Z) :=
  let* name := gets os_name in
  popen ([bazel_path] ++ argv) (negb (String.eqb name "nt"));;
  wait_loop fuel.

Definition main (fuel : nat) (argv : option (list string))
  : M (option Z) :=
  let* argv := match argv with
               | None => gets sys_argv
               | Some a => ret a
               end in
  let* env := gets environ in
  let* h := gets home in
  let bazelisk_directory :=
    default (os_path_join h ".bazelisk") (env !! "BAZELISK_HOME") in
  maybe_makedirs bazelisk_directory;;
  let* bazel_version := decide_which_bazel_version_to_use in
  let* bazel_version :=
    resolve_version_label_to_number bazelisk_directory bazel_version in
  let bazel_directory := os_path_join bazelisk_directory "bin" in
  maybe_makedirs bazel_directory;;
  let* bazel_path := download_bazel_into_directory bazel_version bazel_directory in
  execute_bazel fuel bazel_path (drop 1 argv).

End Bazelisk.

(** * Properties *)

(** ** Strings *)

Lemma append_empty_r (s : string) : s +:+ EmptyString = s.
Proof. induction s as [|c s IH]; simpl; [reflexivity | now rewrite IH]. Qed.

Lemma append_assoc (a b c : string) : (a +:+ b) +:+ c = a +:+ (b +:+ c).
Proof. induction a as [|x a IH]; simpl; [reflexivity | now rewrite IH]. Qed.

Lemma append_length (a b : string) :
  String.length (a +:+ b) = String.length a + String.length b.
Proof. induction a as [|x a IH]; simpl; [reflexivity | now rewrite IH]. Qed.

Lemma append_cancel_l (a b c : string) : a +:+ b = a +:+ c -> b = c.
Proof.
  induction a as [|x a IH]; simpl; [easy | intros [= H]; auto].
Qed.

Lemma substring_whole_prefix (a b : string) :
  substring 0 (String.length a) (a +:+ b) = a.
Proof.
  induction a as [|x a IH]; simpl.
  - now destruct b.
  - now rewrite IH.
Qed.

Lemma all_chars_app (p : ascii -> bool) (a b : string) :
  all_chars p (a +:+ b) = all_chars p a && all_chars p b.
Proof.
  induction a as [|x a IH]; simpl; [reflexivity |].
  rewrite IH. now rewrite andb_assoc.
Qed.

(** [startswith] and [str_in] say what their names say. *)
Lemma startswith_spec (s p : string) :
  startswith s p = true <-> exists rest, s = p +:+ rest.
Proof.
  revert s. induction p as [|a p IH]; intros s; simpl.
  - split; [intros _; now exists s | reflexivity].
  - destruct s as [|b s].
    + split; [discriminate | intros [rest H]; discriminate].
    + destruct (Ascii.eqb_spec a b) as [->|Hne].
      * rewrite IH. split; intros [rest H]; exists rest.
        -- now rewrite H.
        -- now injection H.
      * split; [discriminate | intros [rest H]; congruence].
Qed.

Lemma str_in_spec (needle hay : string) :
  str_in needle hay = true
  <-> exists before after, hay = before +:+ needle +:+ after.
Proof.
  induction hay as [|c hay IH].
  - simpl. rewrite orb_false_r, startswith_spec. split.
    + intros [rest H]. exists EmptyString, rest. exact H.
    + intros [[|x before] [after H]]; [now exists after | discriminate].
  - cbn [str_in]. rewrite orb_true_iff, startswith_spec, IH. split.
    + intros [[rest H] | [before [after H]]].
      * exists EmptyString, rest. exact H.
      * exists (String c before), after. simpl. now rewrite H.
    + intros [[|x before] [after H]].
      * left. now exists after.
      * right. exists before, after. simpl in H. congruence.
Qed.

(** ** The matcher finds a match exactly when there is one *)

Module ReFacts.
Import Re.

Lemma consumed_app (a b : string) : consumed (a +:+ b) b = a.
Proof.
  unfold consumed. rewrite append_length.
  replace (String.length a + String.length b - String.length b)
    with (String.length a) by lia.
  apply substring_whole_prefix.
Qed.

Lemma star_sound {A} cs (s : string) (k : string -> option A) res :
  star cs s k = Some res ->
  exists run s', s = run +:+ s' /\ all_chars (cs_mem cs) run = true
                 /\ k s' = Some res.
Proof.
  induction s as [|c s IH]; simpl; intros H.
  - exists EmptyString, EmptyString. auto.
  - destruct (cs_mem cs c) eqn:Hc.
    + destruct (star cs s k) as [r|] eqn:Hs.
      * injection H as ->. destruct (IH eq_refl) as (run & s' & -> & Hr & Hk).
        exists (String c run), s'. simpl. rewrite Hc, Hr. auto.
      * exists EmptyString, (String c s). auto.
    + exists EmptyString, (String c s). auto.
Qed.

Lemma star_complete {A} cs (run s' : string) (k : string -> option A) :
  all_chars (cs_mem cs) run = true -> k s' <> None ->
  star cs (run +:+ s') k <> None.
Proof.
  induction run as [|c run IH]; simpl; intros Hr Hk.
  - destruct s' as [|c s']; simpl; [exact Hk |].
    destruct (cs_mem cs c); [|exact Hk].
    destruct (star cs s' k); [discriminate | exact Hk].
  - apply andb_true_iff in Hr as [Hc Hr]. rewrite Hc.
    specialize (IH Hr Hk). destruct (star cs (run +:+ s') k);
      [discriminate | contradiction].
Qed.

(** Greedy: on a maximal run the continuation is first tried after it. *)
Lemma star_greedy {A} cs (run rest : string) (k : string -> option A) res :
  all_chars (cs_mem cs) run = true -> head_is (cs_mem cs) rest = false ->
  k rest = Some res -> star cs (run +:+ rest) k = Some res.
Proof.
  induction run as [|c run IH]; simpl; intros Hr Hh Hk.
  - destruct rest as [|c rest]; simpl; [exact Hk |].
    simpl in Hh. now rewrite Hh.
  - apply andb_true_iff in Hr as [Hc Hr]. rewrite Hc.
    now rewrite (IH Hr Hh Hk).
Qed.

(** A continuation that fails after the run and inside it fails the star. *)
Lemma star_fails {A} cs (run rest : string) (k : string -> option A) :
  all_chars (cs_mem cs) run = true -> head_is (cs_mem cs) rest = false ->
  (forall s, head_is (cs_mem cs) s = true -> k s = None) ->
  k rest = None -> star cs (run +:+ rest) k = None.
Proof.
  induction run as [|c run IH]; simpl; intros Hr Hh Hin Hk.
  - destruct rest as [|c rest]; simpl; [exact Hk |].
    simpl in Hh. now rewrite Hh.
  - apply andb_true_iff in Hr as [Hc Hr]. rewrite Hc.
    rewrite (IH Hr Hh Hin Hk). apply Hin. exact Hc.
Qed.

Theorem rx_sound n r : forall s caps k res,
  rx n r s caps k = Some res ->
  exists s' caps', takes n r s s' /\ k s' caps' = Some res.
Proof.
  induction r as [cs|cs|r1 IH1 r2 IH2|r1 IH1|g r1 IH1| | |];
    intros s caps k res H; simpl in H |- *.
  - destruct s as [|c s]; [discriminate |].
    destruct (cs_mem cs c) eqn:Hc; [|discriminate].
    exists s, caps. eauto.
  - apply star_sound in H as (run & s' & -> & Hr & Hk).
    exists s', caps. eauto.
  - apply IH1 in H as (mid & c1 & H1 & H).
    apply IH2 in H as (s' & c2 & H2 & H).
    exists s', c2. eauto.
  - destruct (rx n r1 s caps k) as [r|] eqn:Hr.
    + injection H as ->. apply IH1 in Hr as (s' & c1 & H1 & Hk).
      exists s', c1. auto.
    + exists s, caps. auto.
  - apply IH1 in H as (s' & c1 & H1 & Hk). eauto.
  - destruct (Nat.eqb_spec (String.length s) n); [|discriminate].
    exists s, caps. auto.
  - destruct (at_eos s) eqn:He; [|discriminate]. exists s, caps. auto.
  - exists s, caps. auto.
Qed.

Theorem rx_complete n r : forall s s' caps k,
  takes n r s s' -> (forall c, k s' c <> None) -> rx n r s caps k <> None.
Proof.
  induction r as [cs|cs|r1 IH1 r2 IH2|r1 IH1|g r1 IH1| | |];
    intros s s' caps k H Hk; simpl in H |- *.
  - destruct H as (c & -> & Hc). rewrite Hc. apply Hk.
  - destruct H as (run & -> & Hr). now apply star_complete.
  - destruct H as (mid & H1 & H2).
    apply (IH1 _ mid); [exact H1 |]. intros c. now apply (IH2 _ s').
  - destruct (rx n r1 s caps k) eqn:Hr; [discriminate |].
    destruct H as [-> | H]; [apply Hk |].
    exfalso. now apply (IH1 s s' caps k).
  - apply (IH1 _ s'); [exact H |]. intros c. apply Hk.
  - destruct H as [-> ->]. rewrite Nat.eqb_refl. apply Hk.
  - destruct H as [-> ->]. apply Hk.
  - subst s'. apply Hk.
Qed.

(** [re.match] succeeds exactly when the pattern takes a prefix. *)
Corollary re_match_iff r v :
  re_match r v <> None <-> exists s', takes (String.length v) r v s'.
Proof.
  unfold re_match. split.
  - intros H. destruct (rx _ r v [] _) as [res|] eqn:E; [|contradiction].
    apply rx_sound in E as (s' & _ & Ht & _). eauto.
  - intros [s' Ht]. now apply (rx_complete _ _ _ s').
Qed.

End ReFacts.

(** ** The label pattern *)

(** The labels the specification calls symbolic, with the offset each one
    denotes: [latest], and [latest-] followed by decimal digits. *)
Inductive latest_label : string -> nat -> Prop :=
| label_latest : latest_label "latest" 0
| label_latest_n (ds : string) :
    ds <> EmptyString -> all_chars is_digit ds = true ->
    latest_label ("latest-" +:+ ds) (int_of_digits ds).

(** The pattern as the specification writes it: [^latest(-\d+)?$]. *)
Definition LATEST_PATTERN_SPEC : Re.regex :=
  Re.RSeq Re.RBos
    (Re.RSeq (Re.lit "latest")
       (Re.RSeq (Re.ROpt (Re.RGroup "1" (Re.RSeq (Re.lit_char "-") Re.digits1)))
          Re.REos)).

Section LabelPattern.
Import Re ReFacts.

Lemma consumed_all (s : string) : consumed s EmptyString = s.
Proof.
  rewrite <- (append_empty_r s) at 1. apply consumed_app.
Qed.

Lemma latest_match_plain : re_match LATEST_PATTERN "latest" = Some [].
Proof. reflexivity. Qed.

Lemma latest_match_offset (ds : string) :
  ds <> EmptyString -> all_chars is_digit ds = true ->
  exists m, re_match LATEST_PATTERN ("latest-" +:+ ds) = Some m
            /\ group "offset" m = Some ds.
Proof.
  intros Hne Hds. destruct ds as [|d ds]; [contradiction |].
  simpl in Hds. apply andb_true_iff in Hds as [Hd Hds].
  exists [("1", String "-" (String d ds)); ("offset", String d ds)].
  split; [|reflexivity].
  unfold re_match, LATEST_PATTERN. cbn [rx lit lit_char digits1 digit digits0].
  cbn [String.append cs_mem Ascii.eqb Bool.eqb]. rewrite Hd.
  rewrite <- (append_empty_r ds) at 1.
  erewrite star_greedy; [reflexivity | exact Hds | reflexivity |].
  cbn [at_eos String.eqb orb]. now rewrite !consumed_all.
Qed.

(** Under [re.match] the compiled pattern and the specification's pattern
    accept the same labels. *)
Lemma latest_pattern_spec (v : string) :
  re_match LATEST_PATTERN v = None <-> re_match LATEST_PATTERN_SPEC v = None.
Proof.
  assert (E : re_match LATEST_PATTERN v <> None
              <-> re_match LATEST_PATTERN_SPEC v <> None).
  { rewrite !re_match_iff. unfold LATEST_PATTERN, LATEST_PATTERN_SPEC.
    split.
    - intros [s' H]. exists s'. cbn [takes]. exists v. split; [easy |].
      exact H.
    - intros [s' H]. exists s'. cbn [takes] in H.
      destruct H as (mid & [-> _] & H). exact H. }
  destruct (re_match LATEST_PATTERN v) as [a|],
    (re_match LATEST_PATTERN_SPEC v) as [b|];
    split; intros H; try reflexivity; try discriminate; exfalso;
    [apply (proj1 E) | apply (proj2 E)]; congruence.
Qed.

End LabelPattern.

Section LabelLanguage.
Import Re ReFacts.

Lemma takes_lit n (p s s' : string) : takes n (lit p) s s' <-> s = p +:+ s'.
Proof.
  revert s. induction p as [|a p IH]; intros s; simpl.
  - split; congruence.
  - split.
    + intros (mid & (c & -> & Hc) & H). apply Ascii.eqb_eq in Hc as <-.
      apply IH in H. now subst.
    + intros ->. exists (p +:+ s'). split; [|now apply IH].
      exists a. split; [reflexivity | apply Ascii.eqb_refl].
Qed.

Lemma at_eos_iff (s : string) :
  at_eos s = true <-> s = EmptyString \/ s = newline.
Proof.
  unfold at_eos. rewrite orb_true_iff, !String.eqb_eq. reflexivity.
Qed.

(** The labels [re.match] accepts for [LATEST_PATTERN]: the symbolic labels,
    each also with one final newline, which [$] tolerates. *)
Theorem latest_pattern_language (v : string) :
  re_match LATEST_PATTERN v <> None
  <-> exists l N tail, latest_label l N
        /\ (tail = EmptyString \/ tail = newline) /\ v = l +:+ tail.
Proof.
  rewrite re_match_iff. unfold LATEST_PATTERN. cbn [takes]. split.
  - intros (s' & mid & Hl & mid' & Hopt & -> & He).
    apply takes_lit in Hl. apply at_eos_iff in He.
    destruct Hopt as [-> | (m1 & (c & -> & Hc) & m2 & (d & -> & Hd) & run & -> & Hr)].
    + exists "latest", 0, mid. split; [constructor | auto].
    + cbn [cs_mem] in Hc, Hd. apply Ascii.eqb_eq in Hc as <-.
      exists ("latest-" +:+ String d run), (int_of_digits (String d run)), mid'.
      split; [|split; [exact He |]].
      * constructor; [discriminate | simpl; now rewrite Hd].
      * rewrite Hl. reflexivity.
  - intros (l & N & tail & Hl & Ht & ->).
    exists tail. destruct Hl as [|ds Hne Hds].
    + exists tail. split; [now apply takes_lit |].
      exists tail. split; [now left |]. split; [reflexivity |].
      now apply at_eos_iff.
    + exists ("-" +:+ ds +:+ tail). split.
      { apply takes_lit. reflexivity. }
      exists tail. split; [|split; [reflexivity | now apply at_eos_iff]].
      right. destruct ds as [|d ds]; [contradiction |].
      simpl in Hds. apply andb_true_iff in Hds as [Hd Hds].
      exists (String d ds +:+ tail). split.
      { exists "-"%char. split; [reflexivity | apply Ascii.eqb_refl]. }
      exists (ds +:+ tail). split.
      { exists d. split; [reflexivity | exact Hd]. }
      exists ds. split; [reflexivity | exact Hds].
Qed.

End LabelLanguage.

(** ** What the out-of-range message tells *)

Lemma all_chars_impl (p q : ascii -> bool) (s : string) :
  (forall c, p c = true -> q c = true) ->
  all_chars p s = true -> all_chars q s = true.
Proof.
  intros Hpq. induction s as [|c s IH]; simpl; [reflexivity |].
  intros [Hc Hs]%andb_true_iff. now rewrite (Hpq c Hc), IH.
Qed.

Lemma append_inj_length (a b c d : string) :
  String.length a = String.length b -> a +:+ c = b +:+ d -> a = b /\ c = d.
Proof.
  revert b. induction a as [|x a IH]; intros [|y b]; simpl; try discriminate.
  - auto.
  - intros [= Hlen] [= -> H]. destruct (IH b Hlen H) as [-> ->]. auto.
Qed.

Lemma append_cancel_r (a b c : string) : a +:+ c = b +:+ c -> a = b.
Proof.
  intros H. apply (append_inj_length a b c c); [|exact H].
  apply (f_equal String.length) in H. rewrite !append_length in H. lia.
Qed.

Definition not_quote (c : ascii) : bool := negb (Ascii.eqb c (chr 34)).

(** A text without quotes ends at the first quote that follows it. *)
Lemma split_at_quote (a b x y : string) :
  all_chars not_quote a = true -> all_chars not_quote b = true ->
  a +:+ dquote +:+ x = b +:+ dquote +:+ y -> a = b /\ x = y.
Proof.
  revert b. induction a as [|c a IH]; intros [|d b]; simpl.
  - intros _ _ [= H]. auto.
  - intros _ [Hd _]%andb_true_iff [= <- _]. discriminate.
  - intros [Hc _]%andb_true_iff _ [= -> _]. discriminate.
  - intros [_ Ha]%andb_true_iff [_ Hb]%andb_true_iff [= -> H].
    destruct (IH b Ha Hb H) as [-> ->]. auto.
Qed.

Lemma digit_not_quote (c : ascii) : is_digit c = true -> not_quote c = true.
Proof.
  unfold not_quote. destruct (Ascii.eqb_spec c (chr 34)) as [->|]; [|easy].
  discriminate.
Qed.

Lemma string_of_uint_digits (d : Decimal.uint) :
  all_chars is_digit (NilEmpty.string_of_uint d) = true.
Proof.
  induction d; cbn [NilEmpty.string_of_uint all_chars];
    [reflexivity | rewrite IHd; reflexivity ..].
Qed.

Lemma str_of_nat_digits (n : nat) : all_chars is_digit (str_of_nat n) = true.
Proof. apply string_of_uint_digits. Qed.

Lemma str_of_nat_inj (n m : nat) : str_of_nat n = str_of_nat m -> n = m.
Proof.
  unfold str_of_nat. intros H.
  apply (f_equal NilEmpty.uint_of_string) in H.
  rewrite !NilEmpty.usu in H. injection H as H.
  now apply DecimalNat.Unsigned.to_uint_inj.
Qed.

Lemma offset_label_no_quote (n : nat) :
  all_chars not_quote (offset_label n) = true.
Proof.
  destruct n as [|n]; [reflexivity |]. unfold offset_label.
  rewrite all_chars_app. rewrite andb_true_iff. split; [reflexivity |].
  apply (all_chars_impl is_digit); [apply digit_not_quote |].
  apply str_of_nat_digits.
Qed.

Lemma offset_label_inj (n m : nat) : offset_label n = offset_label m -> n = m.
Proof.
  destruct n as [|n], m as [|m]; cbn [offset_label]; intros H.
  - reflexivity.
  - discriminate.
  - discriminate.
  - apply (append_cancel_l "latest-") in H. now apply str_of_nat_inj.
Qed.

(** The message of [VersionOffsetOutOfRange] determines both numbers. *)
Lemma VersionOffsetOutOfRange_inj (n l n' l' : nat) :
  VersionOffsetOutOfRange n l = VersionOffsetOutOfRange n' l' ->
  n = n' /\ l = l'.
Proof.
  unfold VersionOffsetOutOfRange. intros [= H].
  apply (split_at_quote (offset_label n) (offset_label n')) in H as [Hn H];
    try apply offset_label_no_quote.
  apply offset_label_inj in Hn. injection H as H.
  apply append_cancel_r, str_of_nat_inj in H. auto.
Qed.

(** ** Version resolution *)

Section Resolution.

Variable json_loads : string -> option value.
Variable json_dumps : value -> string.

Let resolve := resolve_version_label_to_number json_loads json_dumps.
Let history_of := get_version_history json_loads json_dumps.

Lemma resolve_latest_version_in_range (history : list value) (N : nat) :
  N < length history ->
  exists v, history !! N = Some v
            /\ resolve_latest_version (VList history) N = Ok v.
Proof.
  intros H. destruct (lookup_lt_is_Some_2 history N H) as [v Hv].
  exists v. split; [exact Hv |].
  unfold resolve_latest_version. cbn [len rbind getindex].
  destruct (Nat.leb_spec (length history) N); [lia |]. now rewrite Hv.
Qed.

Lemma resolve_latest_version_out_of_range (history : list value) (N : nat) :
  length history <= N ->
  resolve_latest_version (VList history) N
  = Raise (VersionOffsetOutOfRange N (length history)).
Proof.
  intros H. unfold resolve_latest_version. cbn [len rbind].
  destruct (Nat.leb_spec (length history) N); [reflexivity | lia].
Qed.

(** A symbolic label is resolved by indexing the release history. *)
Lemma resolve_symbolic (dir label : string) (N : nat) (w : world) :
  latest_label label N ->
  resolve dir label w
  = bind (history_of dir) (fun h => lift (resolve_latest_version h N)) w.
Proof.
  intros [|ds Hne Hds]; unfold resolve, resolve_version_label_to_number.
  - reflexivity.
  - destruct (latest_match_offset ds Hne Hds) as (m & Hm & Hg).
    replace (str_in "latest" ("latest-" +:+ ds)) with true by reflexivity.
    rewrite Hm, Hg. unfold or_else.
    destruct (String.eqb_spec ds EmptyString); [contradiction | reflexivity].
Qed.

(** C1. For a label [latest] or [latest-N] and a release history obtained
    from the cache or the network, resolution returns [history[N]] when
    [N < len(history)]; when [N >= len(history)] it fails with the
    out-of-range error, whose message determines both [N] and
    [len(history)]. *)
Theorem C1_latest_offset_indexes_history
  (dir label : string) (N : nat) (history : list value) (w w' : world) :
  latest_label label N ->
  history_of dir w = (Ok (VList history), w') ->
  (N < length history ->
   exists v, history !! N = Some v /\ resolve dir label w = (Ok v, w'))
  /\ (length history <= N ->
      resolve dir label w
      = (Raise (VersionOffsetOutOfRange N (length history)), w')
      /\ forall N' L', VersionOffsetOutOfRange N (length history)
                       = VersionOffsetOutOfRange N' L' ->
                       N' = N /\ L' = length history).
Proof.
  intros Hl Hh. rewrite (resolve_symbolic dir label N w Hl).
  unfold bind, lift. rewrite Hh. split.
  - intros Hlt. destruct (resolve_latest_version_in_range history N Hlt)
      as (v & Hv & Hr). exists v. now rewrite Hr.
  - intros Hge. rewrite (resolve_latest_version_out_of_range history N Hge).
    split; [reflexivity |].
    intros N' L' E. apply VersionOffsetOutOfRange_inj in E as [-> ->]. auto.
Qed.

(** C2. A label that does not contain [latest] is returned unchanged,
    whatever its form, and the world is left as it was: no file is looked
    at, no request is made. *)
Theorem C2_literal_label_unchanged (dir version : string) (w : world) :
  (forall before after, version <> before +:+ "latest" +:+ after) ->
  resolve dir version w = (Ok (VStr version), w).
Proof.
  intros H. unfold resolve, resolve_version_label_to_number.
  destruct (str_in "latest" version) eqn:E; [|reflexivity].
  apply str_in_spec in E as (before & after & E). now apply H in E.
Qed.

(** C3. A label that contains [latest] and that [re.match] does not accept
    for [^latest(-\d+)?$] fails with the invalid-label error before any
    file or network access. The accepted labels are [latest] and
    [latest-] with digits, each also with one final newline. *)
Theorem C3_malformed_latest_label_rejected
  (dir version before after : string) (w : world) :
  version = before +:+ "latest" +:+ after ->
  Re.re_match LATEST_PATTERN_SPEC version = None ->
  resolve dir version w = (Raise (InvalidVersionLabel version), w)
  /\ ~ (exists l N tail, latest_label l N
          /\ (tail = EmptyString \/ tail = newline) /\ version = l +:+ tail).
Proof.
  intros Hin Hno. apply latest_pattern_spec in Hno. split.
  - unfold resolve, resolve_version_label_to_number.
    replace (str_in "latest" version) with true.
    + now rewrite Hno.
    + symmetry. apply str_in_spec. eauto.
  - intros H. apply latest_pattern_language in H. contradiction.
Qed.

End Resolution.

(** ** The release cache *)

(** One step of symbolic execution in [M]. *)
Ltac mrun :=
  cbn [bind ret raise lift gets log try_except
       os_path_exists os_path_isdir os_path_getmtime read_file write_file
       os_chmod os_makedirs urlopen_read popen p_wait loads
       environ cwd home fs now web machine system os_name sys_argv
       executable interrupts child_status trace set_fs set_trace
       set_interrupts fst snd].

Definition node_mtime (n : node) : float :=
  match n with
  | NDir t => t
  | NFile _ t _ => t
  end.

(** The age test of the cache: the difference of the two doubles, as the
    subtraction rounds it, is less than 3600 seconds away from zero. *)
Definition within_the_hour (t mt : float) : bool :=
  float_lt_int (float_abs (float_sub t mt)) 3600.

(** The rational a finite double stands for. *)
Definition float_value (x : float) : option Q :=
  match x with
  | S754_zero _ => Some 0%Q
  | S754_finite s m e =>
      Some ((if s then - inject_Z (Zpos m) else inject_Z (Zpos m))
            * Qpower 2 e)%Q
  | _ => None
  end.

Definition latest_cache (dir : string) : string :=
  os_path_join dir "latest_bazel".

Lemma is_Some_true {A} (x : A) : bool_decide (is_Some (Some x)) = true.
Proof. apply bool_decide_eq_true. eauto. Qed.

Lemma is_Some_false {A} : bool_decide (is_Some (@None A)) = false.
Proof. apply bool_decide_eq_false. intros [x H]. discriminate. Qed.

Section Cache.

Variable json_loads : string -> option value.
Variable json_dumps : value -> string.

Let history_of := get_version_history json_loads json_dumps.
Let from_github := get_version_history_from_github json_loads.

(** The request to the release listing is the only access the refresh
    makes before the cache is written. *)
Lemma from_github_world (w : world) :
  snd (from_github w)
  = set_trace (trace w ++ [EvUrlopen BAZEL_RELEASES_URL]) w.
Proof.
  unfold from_github, get_version_history_from_github. mrun.
  destruct (web w !! BAZEL_RELEASES_URL) as [body|]; mrun; [|reflexivity].
  unfold loads. destruct (json_loads body) as [listing|]; mrun; [|reflexivity].
  destruct (iter listing) as [releases|]; mrun; [|reflexivity].
  destruct (release_versions releases) as [versions|]; mrun; [|reflexivity].
  destruct (sorted_reverse LooseVersion.lt versions) as [ordered|]; mrun;
    [|reflexivity].
  destruct (map_result LooseVersion.str ordered); reflexivity.
Qed.

Lemma cache_hit (dir : string) (w : world) (n : node) :
  fs w !! latest_cache dir = Some n ->
  within_the_hour (now w) (node_mtime n) = true ->
  history_of dir w
  = (match n with
     | NFile text _ _ =>
         match json_loads (strip text) with
         | Some h => Ok h
         | None => Raise ValueError
         end
     | NDir _ => Raise OSError
     end,
     set_trace (trace w ++ [EvExists (latest_cache dir);
                            EvGetmtime (latest_cache dir);
                            EvRead (latest_cache dir)]) w).
Proof.
  intros Hf Hfresh. unfold history_of, get_version_history.
  fold (latest_cache dir). mrun. rewrite Hf, is_Some_true. mrun.
  rewrite Hf. unfold within_the_hour in Hfresh.
  destruct n as [t|text t m]; mrun; cbn [node_mtime] in Hfresh;
    change ONE_HOUR with 3600%Z; rewrite Hfresh; mrun; rewrite Hf; mrun.
  - now rewrite <- !app_assoc.
  - unfold loads. destruct (json_loads (strip text)); mrun;
      now rewrite <- !app_assoc.
Qed.

(** The file is absent, or the age test fails for it. *)
Definition cache_miss (dir : string) (w : world) : Prop :=
  fs w !! latest_cache dir = None
  \/ exists n, fs w !! latest_cache dir = Some n
               /\ within_the_hour (now w) (node_mtime n) = false.

(** What the look at the cache leaves in the trace before a refresh. *)
Definition probes (dir : string) (w : world) : list event :=
  match fs w !! latest_cache dir with
  | None => [EvExists (latest_cache dir)]
  | Some _ => [EvExists (latest_cache dir); EvGetmtime (latest_cache dir)]
  end.

Lemma cache_miss_refreshes (dir : string) (w : world) :
  cache_miss dir w ->
  history_of dir w
  = bind from_github
      (fun history =>
         bind (write_file (latest_cache dir) (json_dumps history))
           (fun _ => ret history))
      (set_trace (trace w ++ probes dir w) w).
Proof.
  intros Hmiss. unfold history_of, get_version_history, probes.
  fold (latest_cache dir). mrun.
  destruct Hmiss as [Hf | (n & Hf & Hold)]; rewrite Hf.
  - rewrite is_Some_false. mrun. reflexivity.
  - rewrite is_Some_true. mrun. rewrite Hf. unfold within_the_hour in Hold.
    destruct n as [t|text t m]; mrun; cbn [node_mtime] in Hold;
      change ONE_HOUR with 3600%Z; rewrite Hold; mrun;
      rewrite <- !app_assoc; reflexivity.
Qed.

Lemma write_file_trace (path data : string) (w : world) :
  trace (snd (write_file path data w)) = trace w ++ [EvWrite path].
Proof.
  unfold write_file. mrun.
  destruct (fs w !! path) as [[t|d t m]|]; reflexivity.
Qed.

(** C4. The cache file is used as it is, without a request, when it exists
    and the difference [now - mtime], rounded as the subtraction of the two
    doubles rounds it, is less than 3600 away from zero: the result is its
    stripped text parsed as JSON. When the file is absent or the rounded
    difference is 3600 or more away from zero, or is not a number, the
    release listing is requested. One of the two cases always applies. *)
Theorem C4_cache_used_iff_fresh (dir : string) (w : world) :
  (forall n, fs w !! latest_cache dir = Some n ->
     within_the_hour (now w) (node_mtime n) = true ->
     history_of dir w
     = (match n with
        | NFile text _ _ =>
            match json_loads (strip text) with
            | Some h => Ok h
            | None => Raise ValueError
            end
        | NDir _ => Raise OSError
        end,
        set_trace (trace w ++ [EvExists (latest_cache dir);
                               EvGetmtime (latest_cache dir);
                               EvRead (latest_cache dir)]) w))
  /\ (cache_miss dir w ->
      exists rest,
        trace (snd (history_of dir w))
        = trace w ++ probes dir w ++ EvUrlopen BAZEL_RELEASES_URL :: rest)
  /\ ((exists n, fs w !! latest_cache dir = Some n
                 /\ within_the_hour (now w) (node_mtime n) = true)
      \/ cache_miss dir w).
Proof.
  split; [|split].
  - intros n Hf Hfresh. now apply cache_hit.
  - intros Hmiss. rewrite (cache_miss_refreshes dir w Hmiss).
    set (w1 := set_trace (trace w ++ probes dir w) w).
    cbn [bind]. pose proof (from_github_world w1) as Hw.
    destruct (from_github w1) as [[h|e] w2]; cbn [snd] in Hw; subst w2.
    + destruct (write_file (latest_cache dir) (json_dumps h) _)
        as [[u|e] w3] eqn:E.
      * exists [EvWrite (latest_cache dir)]. cbn [ret snd].
        pose proof (write_file_trace (latest_cache dir) (json_dumps h)
                      (set_trace (trace w1 ++ [EvUrlopen BAZEL_RELEASES_URL]) w1))
          as Ht.
        rewrite E in Ht. cbn [snd] in Ht. rewrite Ht. unfold w1. mrun.
        now rewrite <- !app_assoc.
      * exists [EvWrite (latest_cache dir)]. cbn [snd].
        pose proof (write_file_trace (latest_cache dir) (json_dumps h)
                      (set_trace (trace w1 ++ [EvUrlopen BAZEL_RELEASES_URL]) w1))
          as Ht.
        rewrite E in Ht. cbn [snd] in Ht. rewrite Ht. unfold w1. mrun.
        now rewrite <- !app_assoc.
    + exists []. unfold w1. mrun. now rewrite <- !app_assoc.
  - unfold cache_miss. destruct (fs w !! latest_cache dir) as [n|]; [|auto].
    destruct (within_the_hour (now w) (node_mtime n)) eqn:E.
    + left. eauto.
    + right. right. eauto.
Qed.

End Cache.

(** ** The order of [LooseVersion] *)

Module LooseVersionFacts.
Import LooseVersion.

Lemma ord_inj (x y : ascii) : ord x = ord y -> x = y.
Proof.
  unfold ord. intros H. rewrite <- (ascii_N_embedding x), <- (ascii_N_embedding y).
  now rewrite H.
Qed.

Lemma str_lt_irrefl (s : string) : str_lt s s = false.
Proof.
  induction s as [|c s IH]; simpl; [reflexivity |].
  rewrite N.ltb_irrefl, N.eqb_refl. exact IH.
Qed.

Lemma str_lt_trans (a b c : string) :
  str_lt a b = true -> str_lt b c = true -> str_lt a c = true.
Proof.
  revert b c. induction a as [|x a IH]; intros [|y b] [|z c]; simpl;
    try discriminate; try reflexivity.
  destruct (N.ltb_spec (ord x) (ord y)), (N.ltb_spec (ord y) (ord z)),
    (N.ltb_spec (ord x) (ord z)); try reflexivity; try lia;
    destruct (N.eqb_spec (ord x) (ord y)), (N.eqb_spec (ord y) (ord z)),
      (N.eqb_spec (ord x) (ord z)); try discriminate; try lia.
  apply IH.
Qed.

Lemma str_lt_asym (a b : string) : str_lt a b = true -> str_lt b a = false.
Proof.
  intros H. destruct (str_lt b a) eqn:E; [|reflexivity].
  pose proof (str_lt_trans a b a H E) as C. now rewrite str_lt_irrefl in C.
Qed.

Lemma str_lt_total (a b : string) :
  a <> b -> str_lt a b = false -> str_lt b a = true.
Proof.
  revert b. induction a as [|x a IH]; intros [|y b]; simpl;
    try discriminate; try reflexivity; try contradiction.
  intros Hne.
  destruct (N.ltb_spec (ord x) (ord y)) as [L1|L1],
    (N.ltb_spec (ord y) (ord x)) as [L2|L2];
    try discriminate; try reflexivity; try lia.
  destruct (N.eqb_spec (ord x) (ord y)) as [E|E],
    (N.eqb_spec (ord y) (ord x)) as [E'|E']; try lia.
  apply ord_inj in E as ->. intros H. apply IH; [congruence | exact H].
Qed.

Lemma comp_eq_iff (x y : component) : comp_eq x y = true <-> x = y.
Proof.
  destruct x as [m|s], y as [n|t]; simpl.
  - rewrite Nat.eqb_eq. split; congruence.
  - split; discriminate.
  - split; discriminate.
  - rewrite String.eqb_eq. split; congruence.
Qed.

Lemma comp_eq_refl (x : component) : comp_eq x x = true.
Proof. now apply comp_eq_iff. Qed.

Lemma comp_eq_sym (x y : component) : comp_eq x y = comp_eq y x.
Proof.
  destruct (comp_eq x y) eqn:E.
  - apply comp_eq_iff in E as ->. now rewrite comp_eq_refl.
  - destruct (comp_eq y x) eqn:E'; [|reflexivity].
    apply comp_eq_iff in E' as ->. now rewrite comp_eq_refl in E.
Qed.

Lemma comp_lt_asym (x y : component) :
  comp_lt x y = Ok true -> comp_lt y x = Ok false /\ comp_eq x y = false.
Proof.
  destruct x as [m|s], y as [n|t]; simpl; try discriminate; intros [= H].
  - apply Nat.ltb_lt in H. split; [f_equal; apply Nat.ltb_ge; lia |].
    apply Nat.eqb_neq. lia.
  - split; [f_equal; now apply str_lt_asym |].
    apply String.eqb_neq. intros ->. now rewrite str_lt_irrefl in H.
Qed.

Lemma comp_lt_total (x y : component) :
  comp_eq x y = false -> comp_lt x y = Ok false -> comp_lt y x = Ok true.
Proof.
  destruct x as [m|s], y as [n|t]; simpl; try discriminate;
    intros Hne [= H]; f_equal.
  - apply Nat.eqb_neq in Hne. apply Nat.ltb_ge in H. apply Nat.ltb_lt. lia.
  - apply String.eqb_neq in Hne. now apply str_lt_total.
Qed.

(** [x > y] and [y > z] give [x > z]. *)
Lemma comp_gt_trans (x y z : component) :
  comp_eq x y = false -> comp_lt x y = Ok false ->
  comp_eq y z = false -> comp_lt y z = Ok false ->
  comp_eq x z = false /\ comp_lt x z = Ok false.
Proof.
  intros E1 L1 E2 L2.
  pose proof (comp_lt_total x y E1 L1) as G1.
  pose proof (comp_lt_total y z E2 L2) as G2.
  destruct x as [m|s], y as [n|t], z as [p|u]; simpl in *; try discriminate.
  - injection G1 as G1. injection G2 as G2.
    apply Nat.ltb_lt in G1, G2. split.
    + apply Nat.eqb_neq. lia.
    + f_equal. apply Nat.ltb_ge. lia.
  - injection G1 as G1. injection G2 as G2.
    pose proof (str_lt_trans u t s G2 G1) as G. split.
    + apply String.eqb_neq. intros ->. now rewrite str_lt_irrefl in G.
    + f_equal. now apply str_lt_asym.
Qed.

Lemma list_lt_asym (a b : list component) :
  list_lt a b = Ok true -> list_lt b a = Ok false.
Proof.
  revert b. induction a as [|x a IH]; intros [|y b]; simpl;
    try discriminate; try reflexivity.
  rewrite (comp_eq_sym y x). destruct (comp_eq x y) eqn:E.
  - apply IH.
  - intros H. now apply comp_lt_asym in H.
Qed.

(** "Not older than" is transitive wherever it is defined. *)
Lemma list_ge_trans (a b c : list component) :
  list_lt a b = Ok false -> list_lt b c = Ok false -> list_lt a c = Ok false.
Proof.
  revert b c. induction a as [|x a IH]; intros [|y b] [|z c]; simpl;
    try discriminate; try reflexivity.
  destruct (comp_eq x y) eqn:E1, (comp_eq y z) eqn:E2.
  - apply comp_eq_iff in E1 as ->. rewrite E2. apply IH.
  - apply comp_eq_iff in E1 as ->. rewrite E2. auto.
  - apply comp_eq_iff in E2 as ->. rewrite E1. auto.
  - intros L1 L2.
    destruct (comp_gt_trans x y z E1 L1 E2 L2) as [-> ->]. reflexivity.
Qed.

Lemma list_eq_not_lt (a b : list component) :
  list_eq a b = true -> list_lt a b = Ok false.
Proof.
  revert b. induction a as [|x a IH]; intros [|y b]; simpl;
    try discriminate; try reflexivity.
  intros [E H]%andb_true_iff. rewrite E. now apply IH.
Qed.

Lemma list_gt_total (a b : list component) :
  list_eq a b = false -> list_lt a b = Ok false -> list_gt a b = Ok true.
Proof.
  revert b. induction a as [|x a IH]; intros [|y b]; simpl;
    try discriminate; try reflexivity.
  destruct (comp_eq x y) eqn:E; simpl.
  - apply IH.
  - intros _. now apply comp_lt_total.
Qed.

(** On parsed versions [__lt__] is the list comparison of the components. *)
Lemma lt_parsed (s1 s2 : string) (v1 v2 : list component) :
  lt (Parsed s1 v1) (Parsed s2 v2) = list_lt v1 v2.
Proof.
  unfold lt, cmp. destruct (list_eq v1 v2) eqn:E.
  - now rewrite (list_eq_not_lt v1 v2 E).
  - destruct (list_lt v1 v2) as [[|]|e] eqn:L; cbn [rbind]; try reflexivity.
    now rewrite (list_gt_total v1 v2 E L).
Qed.

Lemma lt_asym (a b : t) : lt a b = Ok true -> lt b a = Ok false.
Proof.
  destruct a as [|s1 v1], b as [|s2 v2]; try discriminate.
  rewrite !lt_parsed. apply list_lt_asym.
Qed.

Lemma ge_trans (a b c : t) :
  lt a b = Ok false -> lt b c = Ok false -> lt a c = Ok false.
Proof.
  destruct a as [|s1 v1], b as [|s2 v2], c as [|s3 v3]; try discriminate.
  rewrite !lt_parsed. apply list_ge_trans.
Qed.

End LooseVersionFacts.

(** ** Sorting into descending order *)

Section SortedReverse.

Context {A : Type} (lt : A -> A -> result bool).

(** [a] is not smaller than [b]. *)
Definition not_less (a b : A) : Prop := lt a b = Ok false.

Hypothesis lt_asym : forall a b, lt a b = Ok true -> lt b a = Ok false.
Hypothesis ge_trans : forall a b c,
  not_less a b -> not_less b c -> not_less a c.

Lemma insert_desc_spec (x : A) (l r : list A) :
  insert_desc lt x l = Ok r -> StronglySorted not_less l ->
  StronglySorted not_less r /\ Permutation (x :: l) r.
Proof.
  revert r. induction l as [|y l IH]; intros r; simpl.
  - intros [= <-] _. split; [repeat constructor | reflexivity].
  - destruct (lt x y) as [[|]|e] eqn:Hxy; cbn [rbind]; [| |discriminate].
    + destruct (insert_desc lt x l) as [r'|e] eqn:Hins; cbn [rbind];
        [|discriminate].
      intros [= <-] Hs. apply StronglySorted_inv in Hs as [Hs Hy].
      destruct (IH r' eq_refl Hs) as [Hs' Hp]. split.
      * constructor; [exact Hs' |].
        apply (Permutation_Forall Hp). constructor; [|exact Hy].
        now apply lt_asym.
      * rewrite perm_swap. now constructor.
    + intros [= <-] Hs. split; [|reflexivity].
      constructor; [exact Hs |].
      apply StronglySorted_inv in Hs as [_ Hy].
      constructor; [exact Hxy |].
      eapply Forall_impl; [exact Hy |]. intros z Hz.
      now apply (ge_trans x y z).
Qed.

Theorem sorted_reverse_spec (l r : list A) :
  sorted_reverse lt l = Ok r ->
  StronglySorted not_less r /\ Permutation l r.
Proof.
  revert r. induction l as [|x l IH]; intros r; simpl.
  - intros [= <-]. split; constructor.
  - destruct (sorted_reverse lt l) as [r'|e]; cbn [rbind]; [|discriminate].
    intros H. destruct (IH r' eq_refl) as [Hs Hp].
    destruct (insert_desc_spec x r' r H Hs) as [Hs' Hp']. split; [exact Hs' |].
    rewrite <- Hp'. now constructor.
Qed.

Lemma insert_desc_total (x : A) (l : list A) :
  Forall (fun y => exists b, lt x y = Ok b) l ->
  exists r, insert_desc lt x l = Ok r.
Proof.
  induction l as [|y l IH]; simpl; [eauto |].
  intros H. apply Forall_cons_iff in H as [[b Hb] H]. rewrite Hb. cbn [rbind].
  destruct b; [|eauto].
  destruct (IH H) as [r ->]. cbn [rbind]. eauto.
Qed.

(** The sort returns when all items compare with one another. *)
Theorem sorted_reverse_total (l : list A) :
  (forall x y, x ∈ l -> y ∈ l -> exists b, lt x y = Ok b) ->
  exists r, sorted_reverse lt l = Ok r.
Proof.
  induction l as [|x l IH]; simpl; [eauto |].
  intros H. destruct IH as [r Hr].
  { intros a b Ha Hb. apply H; now constructor. }
  rewrite Hr. cbn [rbind]. apply insert_desc_total.
  apply sorted_reverse_spec in Hr as [_ Hp].
  apply Forall_forall. intros y Hy. rewrite <- Hp in Hy.
  apply H; now constructor.
Qed.

End SortedReverse.

(** ** Refreshing the release history *)

(** The tag names of the releases that are not marked as pre-releases, in
    the order of the listing. *)
Fixpoint published_tags (releases : list value) : list string :=
  match releases with
  | [] => []
  | release :: rest =>
      match getitem release "prerelease", getitem release "tag_name" with
      | Ok pre, Ok (VStr tag) =>
          if truthy pre then published_tags rest
          else tag :: published_tags rest
      | _, _ => published_tags rest
      end
  end.

(** [a] is at least as new as [b]. *)
Definition version_ge (a b : string) : Prop :=
  LooseVersion.list_lt (LooseVersion.parse a) (LooseVersion.parse b)
  = Ok false.

(** [LooseVersion(s)] for a non-empty string. *)
Definition parsed (s : string) : LooseVersion.t :=
  LooseVersion.Parsed s (LooseVersion.parse s).

Section VersionsOfReleases.
Import LooseVersion LooseVersionFacts.

(** What the constructor can return. *)
Definition made (v : LooseVersion.t) : Prop :=
  v = Unparsed \/ exists s, v = parsed s.

Lemma make_made (tag : value) (v : LooseVersion.t) :
  make tag = Ok v -> made v.
Proof.
  unfold make. destruct (truthy tag).
  - destruct tag; try discriminate. intros [= <-]. right. eauto.
  - intros [= <-]. now left.
Qed.

Lemma make_parsed (tag : value) (s : string) :
  make tag = Ok (parsed s) -> tag = VStr s.
Proof.
  unfold make, parsed. destruct (truthy tag); [|discriminate].
  destruct tag; try discriminate. now intros [= ->].
Qed.

Lemma release_versions_made (releases : list value) :
  forall vs, release_versions releases = Ok vs -> Forall made vs.
Proof.
  induction releases as [|r rs IH]; intros vs; simpl.
  - intros [= <-]. constructor.
  - destruct (getitem r "prerelease") as [pre|]; cbn [rbind]; [|discriminate].
    destruct (truthy pre); cbn [negb]; [apply IH |].
    destruct (getitem r "tag_name") as [tag|]; cbn [rbind]; [|discriminate].
    destruct (make tag) as [v|] eqn:Hv; cbn [rbind]; [|discriminate].
    destruct (release_versions rs) as [vs'|]; cbn [rbind]; [|discriminate].
    intros [= <-]. constructor; [now apply (make_made tag) | now apply IH].
Qed.

Lemma release_versions_tags (releases : list value) :
  forall names, release_versions releases = Ok (map parsed names) ->
                names = published_tags releases.
Proof.
  induction releases as [|r rs IH]; intros names; simpl.
  - destruct names; [reflexivity | discriminate].
  - destruct (getitem r "prerelease") as [pre|]; cbn [rbind]; [|discriminate].
    destruct (truthy pre); cbn [negb].
    { destruct (getitem r "tag_name") as [[]|]; apply IH. }
    destruct (getitem r "tag_name") as [tag|]; cbn [rbind]; [|discriminate].
    destruct (make tag) as [v|] eqn:Hv; cbn [rbind]; [|discriminate].
    destruct (release_versions rs) as [vs'|]; cbn [rbind]; [|discriminate].
    destruct names as [|n names]; [discriminate |]. cbn [map].
    intros [= -> ->]. apply make_parsed in Hv as ->.
    f_equal. now apply IH.
Qed.

Lemma map_result_str (vs : list LooseVersion.t) :
  forall names, map_result str vs = Ok names -> Forall made vs ->
                vs = map parsed names.
Proof.
  induction vs as [|v vs IH]; intros names; simpl.
  - intros [= <-] _. reflexivity.
  - destruct (str v) as [s|] eqn:Hs; cbn [rbind]; [|discriminate].
    destruct (map_result str vs) as [ss|]; cbn [rbind]; [|discriminate].
    intros [= <-] H. apply Forall_cons_iff in H as [Hv H].
    cbn [map]. f_equal; [|now apply IH].
    destruct Hv as [-> | [s' ->]]; [discriminate |].
    simpl in Hs. now injection Hs as ->.
Qed.

Lemma sorted_parsed (names : list string) :
  StronglySorted (not_less lt) (map parsed names) ->
  StronglySorted version_ge names.
Proof.
  induction names as [|n names IH]; cbn [map]; intros H; [constructor |].
  apply StronglySorted_inv in H as [Hs Hn]. constructor; [now apply IH |].
  apply Forall_forall. intros x Hx. rewrite Forall_forall in Hn.
  assert (Hin : parsed x ∈ map parsed names)
    by (apply (list_elem_of_fmap_2 parsed); exact Hx).
  specialize (Hn (parsed x) Hin). unfold not_less, parsed in Hn.
  now rewrite lt_parsed in Hn.
Qed.

Lemma parsed_inj : Inj (=) (=) parsed.
Proof. intros a b [= H _]. exact H. Qed.

End VersionsOfReleases.

Section Numeric.
Import LooseVersion LooseVersionFacts.

Definition is_int (c : component) : Prop := exists n, c = CInt n.

(** A version made of numbers and dots only, such as [0.20.0]. *)
Definition numeric (tag : string) : Prop := Forall is_int (parse tag).

Lemma list_lt_ints (a b : list component) :
  Forall is_int a -> Forall is_int b -> exists r, list_lt a b = Ok r.
Proof.
  revert b. induction a as [|x a IH]; intros [|y b] Ha Hb; simpl; eauto.
  apply Forall_cons_iff in Ha as [[m ->] Ha].
  apply Forall_cons_iff in Hb as [[n ->] Hb].
  destruct (comp_eq (CInt m) (CInt n)); [now apply IH | simpl; eauto].
Qed.

(** A release entry as the listing has them: an object with a Boolean
    [prerelease] that, unless it is a pre-release, has a non-empty numeric
    [tag_name]. *)
Definition plain_release (r : value) : Prop :=
  exists kv pre,
    r = VDict kv /\ assoc "prerelease" kv = Some (VBool pre)
    /\ (pre = true
        \/ exists tag, assoc "tag_name" kv = Some (VStr tag)
                       /\ tag <> EmptyString /\ numeric tag).

Lemma release_versions_plain (releases : list value) :
  Forall plain_release releases ->
  exists names, release_versions releases = Ok (map parsed names)
                /\ Forall numeric names.
Proof.
  induction releases as [|r rs IH]; intros H; simpl.
  - exists []. split; [reflexivity | constructor].
  - apply Forall_cons_iff in H as [(kv & pre & -> & Hp & Ht) H].
    destruct (IH H) as (names & Hr & Hnum).
    cbn [getitem]. rewrite Hp. cbn [rbind truthy].
    destruct Ht as [-> | (tag & Ht & Hne & Hn)].
    + cbn [negb]. eauto.
    + destruct pre; cbn [negb]; [eauto |].
      rewrite Ht. unfold make. cbn [truthy rbind].
      destruct (String.eqb_spec tag EmptyString); [contradiction |].
      cbn [negb rbind]. rewrite Hr. cbn [rbind].
      exists (tag :: names). split; [reflexivity | now constructor].
Qed.

Lemma map_result_str_total (names : list string) :
  map_result str (map parsed names) = Ok names.
Proof.
  induction names as [|n names IH]; simpl; [reflexivity |].
  now rewrite IH.
Qed.

Lemma all_parsed (vs : list t) :
  Forall (fun v => exists s, v = parsed s) vs -> exists names, vs = map parsed names.
Proof.
  induction vs as [|v vs IH]; intros H.
  - now exists [].
  - apply Forall_cons_iff in H as [[s ->] H]. destruct (IH H) as [names ->].
    now exists (s :: names).
Qed.

End Numeric.

Ltac mrun_in H :=
  cbn [bind ret raise lift gets log try_except
       os_path_exists os_path_isdir os_path_getmtime read_file write_file
       os_chmod os_makedirs urlopen_read popen p_wait loads
       environ cwd home fs now web machine system os_name sys_argv
       executable interrupts child_status trace set_fs set_trace
       set_interrupts fst snd] in H.

Section Refresh.
Import LooseVersion LooseVersionFacts.

Variable json_loads : string -> option value.
Variable json_dumps : value -> string.

Let history_of := get_version_history json_loads json_dumps.
Let from_github := get_version_history_from_github json_loads.

Definition vstring_of (v : LooseVersion.t) : string :=
  match v with
  | Parsed s _ => s
  | Unparsed => EmptyString
  end.

Lemma vstring_of_parsed (names : list string) :
  map vstring_of (map parsed names) = names.
Proof.
  induction names as [|n names IH]; simpl; [reflexivity | now rewrite IH].
Qed.

(** A successful request returns the published tags, newest first. *)
Lemma from_github_ok (w w' : world) (h : value) :
  from_github w = (Ok h, w') ->
  exists body listing releases names,
    web w !! BAZEL_RELEASES_URL = Some body
    /\ json_loads body = Some listing
    /\ iter listing = Ok releases
    /\ h = VList (map VStr names)
    /\ Permutation (published_tags releases) names
    /\ StronglySorted version_ge names.
Proof.
  unfold from_github, get_version_history_from_github. mrun.
  destruct (web w !! BAZEL_RELEASES_URL) as [body|] eqn:Hweb; mrun;
    [|discriminate].
  unfold loads. destruct (json_loads body) as [listing|] eqn:Hjson; mrun;
    [|discriminate].
  destruct (iter listing) as [releases|] eqn:Hiter; mrun; [|discriminate].
  destruct (release_versions releases) as [versions|] eqn:Hv; mrun;
    [|discriminate].
  destruct (sorted_reverse lt versions) as [ordered|] eqn:Ho; mrun;
    [|discriminate].
  destruct (map_result str ordered) as [names|] eqn:Hn; mrun; [|discriminate].
  intros [= <- _]. exists body, listing, releases, names.
  apply (sorted_reverse_spec lt lt_asym ge_trans) in Ho as [Hs Hp].
  pose proof (release_versions_made releases versions Hv) as Hm.
  assert (Hm' : Forall made ordered) by (now rewrite <- Hp).
  pose proof (map_result_str ordered names Hn Hm') as ->.
  destruct (all_parsed versions) as [tags ->].
  { rewrite Hp. apply Forall_forall. intros v [s [-> _]]%list_elem_of_fmap_1.
    eauto. }
  apply release_versions_tags in Hv as <-.
  repeat (split; [easy |]). split.
  - apply (Permutation_map vstring_of) in Hp.
    now rewrite !vstring_of_parsed in Hp.
  - now apply sorted_parsed.
Qed.

Lemma version_ge_refl (a : string) : version_ge a a.
Proof.
  unfold version_ge. apply list_eq_not_lt.
  induction (parse a) as [|c l IH]; simpl; [reflexivity |].
  now rewrite comp_eq_refl.
Qed.

(** In a list sorted newest first, the first item is the newest. *)
Lemma newest_first (names : list string) (first x : string) (i : nat) :
  StronglySorted version_ge names ->
  names !! 0 = Some first -> names !! i = Some x -> version_ge first x.
Proof.
  intros Hs. destruct names as [|n names]; [discriminate |].
  intros [= ->]. destruct i as [|i]; simpl.
  - intros [= ->]. apply version_ge_refl.
  - intros Hx. apply StronglySorted_inv in Hs as [_ Hn].
    rewrite Forall_forall in Hn. apply Hn. eapply list_elem_of_lookup_2, Hx.
Qed.

(** The refresh returns on a listing of plain releases. *)
Lemma from_github_total (w : world) (body : string) (releases : list value) :
  web w !! BAZEL_RELEASES_URL = Some body ->
  json_loads body = Some (VList releases) ->
  Forall plain_release releases ->
  exists h, from_github w
            = (Ok h, set_trace (trace w ++ [EvUrlopen BAZEL_RELEASES_URL]) w).
Proof.
  intros Hweb Hjson Hplain.
  unfold from_github, get_version_history_from_github. mrun.
  rewrite Hweb. mrun. unfold loads. rewrite Hjson. mrun. cbn [iter]. mrun.
  destruct (release_versions_plain releases Hplain) as (tags & -> & Hnum).
  mrun.
  destruct (sorted_reverse_total lt lt_asym ge_trans (map parsed tags))
    as [ordered Ho].
  { intros x y [a [-> Ha]]%list_elem_of_fmap_1 [b [-> Hb]]%list_elem_of_fmap_1.
    unfold parsed. rewrite lt_parsed. rewrite Forall_forall in Hnum.
    apply list_lt_ints; now apply Hnum. }
  rewrite Ho. mrun.
  pose proof (sorted_reverse_spec lt lt_asym ge_trans _ _ Ho) as [_ Hp].
  destruct (all_parsed ordered) as [names ->].
  { rewrite <- Hp. apply Forall_forall.
    intros v [s [-> _]]%list_elem_of_fmap_1. eauto. }
  rewrite map_result_str_total. mrun. eauto.
Qed.


End Refresh.

(** ** Version selection *)

Section ProjectRoot.

Lemma rstrip_with_prefix (p : ascii -> bool) (s : string) :
  exists rest, s = rstrip_with p s +:+ rest.
Proof.
  induction s as [|c s [rest IH]]; simpl; [now exists EmptyString |].
  destruct (rstrip_with p s) as [|d r].
  - destruct (p c); [now exists (String c s) |].
    exists s. reflexivity.
  - exists rest. simpl in IH |- *. now rewrite IH at 1.
Qed.

Lemma upto_last_slash_prefix (s : string) :
  exists rest, s = upto_last_slash s +:+ rest.
Proof.
  induction s as [|c s [rest IH]]; simpl; [now exists EmptyString |].
  destruct (upto_last_slash s) as [|d r].
  - destruct (is_slash c); [now exists s | now exists (String c s)].
  - exists rest. simpl in IH |- *. now rewrite IH at 1.
Qed.

Lemma dirname_prefix (p : string) : exists rest, p = os_path_dirname p +:+ rest.
Proof.
  unfold os_path_dirname. destruct (upto_last_slash_prefix p) as [r1 H1].
  destruct (_ && _); [|eauto].
  destruct (rstrip_with_prefix is_slash (upto_last_slash p)) as [r2 H2].
  exists (r2 +:+ r1). rewrite <- append_assoc, <- H2. exact H1.
Qed.

(** Going up shortens a path, unless it is its own parent. *)
Lemma dirname_shorter (p : string) :
  os_path_dirname p <> p ->
  String.length (os_path_dirname p) < String.length p.
Proof.
  intros Hne. destruct (dirname_prefix p) as [rest H].
  destruct rest as [|c rest].
  - rewrite append_empty_r in H. congruence.
  - rewrite H at 2. rewrite append_length. simpl. lia.
Qed.

(** The [k]-th directory above [dir]. *)
Definition ancestor (k : nat) (dir : string) : string :=
  Nat.iter k os_path_dirname dir.

(** [dir] holds the marker of a project root. *)
Definition marked (files : gmap string node) (dir : string) : Prop :=
  is_Some (files !! os_path_join dir "WORKSPACE").

(** [root] is the nearest marked directory at or above [dir]. *)
Definition nearest_root (files : gmap string node) (dir root : string) : Prop :=
  exists k, root = ancestor k dir /\ marked files root
            /\ forall j, j < k -> ~ marked files (ancestor j dir).

Lemma ancestor_fixed (k : nat) (dir : string) :
  os_path_dirname dir = dir -> ancestor k dir = dir.
Proof.
  intros H. induction k as [|k IH]; [reflexivity |].
  unfold ancestor in *. simpl. now rewrite IH.
Qed.

Lemma ancestor_succ (k : nat) (dir : string) :
  ancestor (S k) dir = ancestor k (os_path_dirname dir).
Proof.
  unfold ancestor. induction k as [|k IH]; [reflexivity |].
  simpl in *. now rewrite IH.
Qed.

(** The search returns the nearest marked directory, or nothing when no
    directory up to the top is marked; the bound on its depth is never
    reached, and the file system is only looked at. *)
Lemma find_workspace_root_from_spec (fuel : nat) :
  forall (root : string) (w : world),
    String.length root <= fuel ->
    exists t,
      snd (find_workspace_root_from fuel root w) = set_trace t w
      /\ match fst (find_workspace_root_from fuel root w) with
         | Ok (Some r) => nearest_root (fs w) root r
         | Ok None => forall k, ~ marked (fs w) (ancestor k root)
         | Raise _ => False
         end.
Proof.
  induction fuel as [|fuel IH]; intros root w Hlen.
  - cbn [find_workspace_root_from]. mrun.
    destruct (bool_decide (is_Some _)) eqn:Hm; mrun.
    + eexists. split; [reflexivity |]. exists 0.
      apply bool_decide_eq_true in Hm. repeat split; [exact Hm | lia].
    + destruct (String.eqb_spec (os_path_dirname root) root) as [E|E];
        cbn [negb]; mrun.
      * eexists. split; [reflexivity |]. intros k.
        rewrite (ancestor_fixed k root E).
        now apply bool_decide_eq_false in Hm.
      * apply dirname_shorter in E. lia.
  - cbn [find_workspace_root_from]. mrun.
    destruct (bool_decide (is_Some _)) eqn:Hm; mrun.
    + eexists. split; [reflexivity |]. exists 0.
      apply bool_decide_eq_true in Hm. repeat split; [exact Hm | lia].
    + apply bool_decide_eq_false in Hm.
      destruct (String.eqb_spec (os_path_dirname root) root) as [E|E];
        cbn [negb]; mrun.
      * eexists. split; [reflexivity |]. intros k.
        now rewrite (ancestor_fixed k root E).
      * pose proof (dirname_shorter root E) as Hs.
        set (w1 := set_trace _ w).
        destruct (IH (os_path_dirname root) w1) as (t & Hw & Hr); [lia |].
        exists t. split; [rewrite Hw; reflexivity |].
        destruct (fst (find_workspace_root_from fuel (os_path_dirname root) w1))
          as [[r|]|e]; [| |contradiction].
        -- destruct Hr as (k & -> & Hk & Hj). exists (S k).
           rewrite ancestor_succ. repeat split; [exact Hk |].
           intros [|j] Hlt; [exact Hm |].
           rewrite ancestor_succ. apply Hj. lia.
        -- intros [|k]; [exact Hm |]. rewrite ancestor_succ. apply Hr.
Qed.

End ProjectRoot.

Section Selection.

Lemma nearest_root_unique (files : gmap string node) (dir r1 r2 : string) :
  nearest_root files dir r1 -> nearest_root files dir r2 -> r1 = r2.
Proof.
  intros (k1 & -> & M1 & L1) (k2 & -> & M2 & L2).
  destruct (Nat.lt_trichotomy k1 k2) as [H|[->|H]]; [|reflexivity|].
  - now destruct (L2 k1 H).
  - now destruct (L1 k2 H).
Qed.

Lemma strip_example :
  strip ("  4.5.6" +:+ newline) = "4.5.6".
Proof. reflexivity. Qed.

(** What the search of the project root leaves behind, for the callers. *)
Lemma find_workspace_root_spec (w : world) :
  exists t,
    snd (find_workspace_root None w) = set_trace t w
    /\ match fst (find_workspace_root None w) with
       | Ok (Some r) => nearest_root (fs w) (cwd w) r
       | Ok None => forall k, ~ marked (fs w) (ancestor k (cwd w))
       | Raise _ => False
       end.
Proof.
  unfold find_workspace_root. mrun.
  apply find_workspace_root_from_spec. lia.
Qed.

(** The selection when no override is set, as a function of the project
    root that was found. *)
Definition pinned_or_latest (files : gmap string node) (root : option string)
  : result string :=
  match root with
  | Some r =>
      if String.eqb r EmptyString then Ok "latest"
      else match files !! os_path_join r ".bazelversion" with
           | Some (NFile text _ _) => Ok (strip text)
           | Some (NDir _) => Raise OSError
           | None => Ok "latest"
           end
  | None => Ok "latest"
  end.

Lemma decide_without_override (w : world) :
  environ w !! "USE_BAZEL_VERSION" = None ->
  exists root,
    fst (find_workspace_root None w) = Ok root
    /\ fst (decide_which_bazel_version_to_use w) = pinned_or_latest (fs w) root.
Proof.
  intros Henv. unfold decide_which_bazel_version_to_use. mrun. rewrite Henv.
  mrun. destruct (find_workspace_root_spec w) as (t & Hw & Hr).
  destruct (find_workspace_root None w) as [[root|e] w1]; cbn [fst snd] in *;
    [|contradiction].
  subst w1. exists root. split; [reflexivity |].
  destruct root as [r|]; mrun; [|reflexivity]. cbn [pinned_or_latest].
  destruct (String.eqb r EmptyString); cbn [negb]; mrun; [reflexivity |].
  destruct (fs w !! os_path_join r ".bazelversion") as [[mt|text mt mode]|]
    eqn:Hfile;
    rewrite ?is_Some_true, ?is_Some_false; mrun; rewrite ?Hfile; mrun;
    reflexivity.
Qed.

(** C6, as the code has it. An override that is set, even to the empty
    string, is returned as it is and nothing else is looked at. Without an
    override, the nearest directory at or above the current one that holds
    WORKSPACE is the project root: if it holds a [.bazelversion] file, the
    stripped contents of the file are returned; if it holds none, or if no
    directory is marked, the result is [latest]. *)
Theorem C6_selection_priority (w : world) :
  (forall v, environ w !! "USE_BAZEL_VERSION" = Some v ->
     decide_which_bazel_version_to_use w = (Ok v, w))
  /\ (environ w !! "USE_BAZEL_VERSION" = None ->
      (forall root text mt mode,
         nearest_root (fs w) (cwd w) root -> root <> EmptyString ->
         fs w !! os_path_join root ".bazelversion" = Some (NFile text mt mode) ->
         fst (decide_which_bazel_version_to_use w) = Ok (strip text))
      /\ (forall root,
            nearest_root (fs w) (cwd w) root ->
            fs w !! os_path_join root ".bazelversion" = None ->
            fst (decide_which_bazel_version_to_use w) = Ok "latest")
      /\ ((forall k, ~ marked (fs w) (ancestor k (cwd w))) ->
          fst (decide_which_bazel_version_to_use w) = Ok "latest")).
Proof.
  split.
  - intros v Henv. unfold decide_which_bazel_version_to_use. mrun.
    now rewrite Henv.
  - intros Henv. destruct (decide_without_override w Henv) as (found & Hf & ->).
    pose proof (find_workspace_root_spec w) as (t & _ & Hr). rewrite Hf in Hr.
    repeat split.
    + intros root text mt mode Hn Hne Hfile. destruct found as [r|].
      * rewrite (nearest_root_unique _ _ _ _ Hr Hn). cbn [pinned_or_latest].
        destruct (String.eqb_spec root EmptyString); [contradiction |].
        now rewrite Hfile.
      * destruct Hn as (k & -> & Hm & _). now destruct (Hr k).
    + intros root Hn Hfile. destruct found as [r|]; [|reflexivity].
      rewrite (nearest_root_unique _ _ _ _ Hr Hn). cbn [pinned_or_latest].
      rewrite Hfile. now destruct (String.eqb root EmptyString).
    + intros Hnone. destruct found as [r|]; [|reflexivity].
      destruct Hr as (k & -> & Hm & _). now destruct (Hnone k).
Qed.

End Selection.

(** ** The download URL *)

(** The release-candidate suffix [rc\d] at the start of [tail], if any. *)
Definition rc_of (tail : string) : option string :=
  match tail with
  | String a (String b (String d _)) =>
      if Ascii.eqb "r" a && Ascii.eqb "c" b && is_digit d
      then Some (String a (String b (String d EmptyString)))
      else None
  | _ => None
  end.

(** The release segment of the URL. *)
Definition segment (tail : string) : string :=
  match rc_of tail with
  | Some rc => rc
  | None => "release"
  end.

Section UrlPattern.
Import Re ReFacts.

Definition RC_GROUP : regex := ROpt (RGroup "2" (RSeq (lit "rc") digit)).

Lemma rc_group_match n (tail : string) (caps : captures) :
  rx n RC_GROUP tail caps (fun _ c => Some c)
  = Some (match rc_of tail with
          | Some rc => ("2", rc) :: caps
          | None => caps
          end).
Proof.
  unfold RC_GROUP, rc_of. cbn [rx lit lit_char digit].
  destruct tail as [|c1 [|c2 [|c3 tail]]]; cbn [cs_mem].
  - reflexivity.
  - destruct (Ascii.eqb "r" c1); reflexivity.
  - destruct (Ascii.eqb "r" c1); [|reflexivity].
    destruct (Ascii.eqb "c" c2); reflexivity.
  - destruct (Ascii.eqb "r" c1); [|reflexivity].
    destruct (Ascii.eqb "c" c2); [|reflexivity].
    destruct (is_digit c3); [|reflexivity]. cbn [andb].
    change (String c1 (String c2 (String c3 tail)))
      with (String c1 (String c2 (String c3 EmptyString)) +:+ tail).
    now rewrite consumed_app.
Qed.

Lemma url_match_two (d1 d2 tail : string) :
  all_chars is_digit d1 = true -> all_chars is_digit d2 = true ->
  head_is is_digit tail = false -> head_is (Ascii.eqb ".") tail = false ->
  re_match URL_PATTERN (d1 +:+ "." +:+ d2 +:+ tail)
  = Some (match rc_of tail with
          | Some rc => [("2", rc); ("1", d1 +:+ "." +:+ d2)]
          | None => [("1", d1 +:+ "." +:+ d2)]
          end).
Proof.
  intros H1 H2 Ht Hdot. unfold re_match, URL_PATTERN.
  fold RC_GROUP. cbn [rx digits0 lit_char].
  erewrite star_greedy; [reflexivity | exact H1 | reflexivity |].
  cbn [String.append cs_mem]. rewrite Ascii.eqb_refl.
  erewrite star_greedy; [reflexivity | exact H2 | exact Ht |].
  assert (E : d1 +:+ String "." (d2 +:+ tail) = (d1 +:+ String "." d2) +:+ tail)
    by (now rewrite append_assoc).
  rewrite E, consumed_app.
  destruct tail as [|c t]; [|cbn [head_is] in Hdot; rewrite Hdot];
    now rewrite rc_group_match.
Qed.

Lemma url_match_three (d1 d2 d3 tail : string) :
  all_chars is_digit d1 = true -> all_chars is_digit d2 = true ->
  all_chars is_digit d3 = true -> head_is is_digit tail = false ->
  re_match URL_PATTERN (d1 +:+ "." +:+ d2 +:+ "." +:+ d3 +:+ tail)
  = Some (match rc_of tail with
          | Some rc => [("2", rc); ("1", d1 +:+ "." +:+ d2 +:+ "." +:+ d3)]
          | None => [("1", d1 +:+ "." +:+ d2 +:+ "." +:+ d3)]
          end).
Proof.
  intros H1 H2 H3 Ht. unfold re_match, URL_PATTERN.
  fold RC_GROUP. cbn [rx digits0 lit_char].
  erewrite star_greedy; [reflexivity | exact H1 | reflexivity |].
  cbn [String.append cs_mem]. rewrite Ascii.eqb_refl.
  erewrite star_greedy; [reflexivity | exact H2 | reflexivity |].
  cbn [String.append cs_mem]. rewrite Ascii.eqb_refl.
  erewrite star_greedy; [reflexivity | exact H3 | exact Ht |].
  assert (E : d1 +:+ String "." (d2 +:+ String "." (d3 +:+ tail))
              = (d1 +:+ String "." (d2 +:+ String "." d3)) +:+ tail).
  { rewrite !append_assoc. cbn [String.append]. now rewrite !append_assoc. }
  rewrite E, consumed_app. now rewrite rc_group_match.
Qed.

(** No match: after its leading digits the version shows no dot. *)
Lemma url_match_none (d1 tail : string) :
  all_chars is_digit d1 = true -> head_is is_digit tail = false ->
  head_is (Ascii.eqb ".") tail = false ->
  re_match URL_PATTERN (d1 +:+ tail) = None.
Proof.
  intros H1 Ht Hdot. unfold re_match, URL_PATTERN.
  cbn [rx digits0 lit_char].
  apply star_fails; [exact H1 | exact Ht | |].
  - intros [|c s]; cbn [head_is cs_mem]; [discriminate |]. intros Hc.
    destruct (Ascii.eqb_spec "." c) as [<-|]; [discriminate | reflexivity].
  - destruct tail as [|c t]; [reflexivity |]. cbn [head_is] in Hdot.
    cbn [cs_mem]. now rewrite Hdot.
Qed.

End UrlPattern.

Definition url_of (base seg filename : string) : string :=
  "https://releases.bazel.build/" +:+ base +:+ "/" +:+ seg +:+ "/" +:+ filename.

Lemma segment_not_empty (tail : string) :
  rc_of tail <> Some EmptyString.
Proof.
  unfold rc_of. destruct tail as [|a [|b [|d t]]]; try discriminate.
  destruct (_ && _); discriminate.
Qed.

Lemma determine_url_of_match (v base f : string) (tail : string) :
  Re.re_match URL_PATTERN v
  = Some (match rc_of tail with
          | Some rc => [("2", rc); ("1", base)]
          | None => [("1", base)]
          end) ->
  determine_url (VStr v) f = Ok (url_of base (segment tail) f).
Proof.
  intros H. unfold determine_url, url_of, segment. rewrite H.
  pose proof (segment_not_empty tail) as Hne.
  destruct (rc_of tail) as [[|c rc]|]; [congruence | reflexivity ..].
Qed.

(** C7, as the code has it. When the version starts with digits, a dot
    and digits, where either run of digits may be empty, optionally
    followed by another dot and digits, that longest prefix is the base;
    the segment is [rc] and a digit when these follow the base at once, and
    [release] otherwise; the URL joins host, base, segment and file name.
    So [0.20.0] gives the segment [release], and [0.20.0rc1] the base
    [0.20.0] and the segment [rc1]. *)
Theorem C7_url_from_base_and_segment (f : string) :
  (forall d1 d2 tail,
     all_chars is_digit d1 = true -> all_chars is_digit d2 = true ->
     head_is is_digit tail = false -> head_is (Ascii.eqb ".") tail = false ->
     determine_url (VStr (d1 +:+ "." +:+ d2 +:+ tail)) f
     = Ok (url_of (d1 +:+ "." +:+ d2) (segment tail) f))
  /\ (forall d1 d2 d3 tail,
        all_chars is_digit d1 = true -> all_chars is_digit d2 = true ->
        all_chars is_digit d3 = true -> head_is is_digit tail = false ->
        determine_url (VStr (d1 +:+ "." +:+ d2 +:+ "." +:+ d3 +:+ tail)) f
        = Ok (url_of (d1 +:+ "." +:+ d2 +:+ "." +:+ d3) (segment tail) f))
  /\ determine_url (VStr "0.20.0") f = Ok (url_of "0.20.0" "release" f)
  /\ determine_url (VStr "0.20.0rc1") f = Ok (url_of "0.20.0" "rc1" f).
Proof.
  repeat split.
  - intros d1 d2 tail H1 H2 Ht Hdot.
    apply determine_url_of_match. now apply url_match_two.
  - intros d1 d2 d3 tail H1 H2 H3 Ht.
    apply determine_url_of_match. now apply url_match_three.
Qed.

Section LiteralLabels.

Variable json_loads : string -> option value.
Variable json_dumps : value -> string.

(** C10. A label without [latest] that shows no dot after its leading
    digits, such as [abc], is returned unchanged by the resolution, and the
    URL derivation then raises [AttributeError], the match being [None];
    this is none of the four errors the program raises itself. *)
Theorem C10_unvalidated_label_breaks_url_derivation
  (dir d1 tail f : string) (w : world) :
  str_in "latest" (d1 +:+ tail) = false ->
  all_chars is_digit d1 = true -> head_is is_digit tail = false ->
  head_is (Ascii.eqb ".") tail = false ->
  resolve_version_label_to_number json_loads json_dumps dir (d1 +:+ tail) w
  = (Ok (VStr (d1 +:+ tail)), w)
  /\ Re.re_match URL_PATTERN (d1 +:+ tail) = None
  /\ determine_url (VStr (d1 +:+ tail)) f = Raise AttributeError
  /\ (forall s, AttributeError <> InvalidVersionLabel s)
  /\ (forall n l, AttributeError <> VersionOffsetOutOfRange n l)
  /\ (forall s, AttributeError <> UnsupportedArchitecture s)
  /\ (forall s, AttributeError <> UnsupportedOperatingSystem s).
Proof.
  intros Hin H1 Ht Hdot.
  pose proof (url_match_none d1 tail H1 Ht Hdot) as Hm.
  repeat split; try discriminate.
  - unfold resolve_version_label_to_number. now rewrite Hin.
  - exact Hm.
  - unfold determine_url. now rewrite Hm.
Qed.

End LiteralLabels.

(** ** The file name of the artifact *)

Section Filename.

Variable repr : value -> string.

(** The architecture after normalisation: lower case, [amd64] renamed. *)
Definition normalized (machine : string) : string :=
  if String.eqb (lower machine) "amd64" then "x86_64" else lower machine.

Lemma normalized_machine_arch_name_spec (w : world) :
  normalized_machine_arch_name w = (Ok (normalized (machine w)), w).
Proof.
  unfold normalized_machine_arch_name, normalized. mrun.
  now destruct (String.eqb (lower (machine w)) "amd64").
Qed.

Lemma normalized_x86_64 (machine : string) :
  normalized machine = "x86_64"
  <-> lower machine = "amd64" \/ lower machine = "x86_64".
Proof.
  unfold normalized. destruct (String.eqb_spec (lower machine) "amd64") as [E|E].
  - split; auto.
  - split; [auto | intros [H|H]; [contradiction | exact H]].
Qed.

(** C8. The architecture is lower-cased and [amd64] is renamed [x86_64];
    any other result fails with the architecture error. Then the
    lower-cased system name must be [linux], [darwin] or [windows], or the
    call fails with the operating-system error. Otherwise the name is
    [bazel-<version>-<os>-<arch>], with [.exe] added exactly on windows. *)
Theorem C8_filename_by_platform (version : value) (w : world) :
  let arch := normalized (machine w) in
  let os := lower (system w) in
  (arch <> "x86_64" ->
   determine_bazel_filename repr version w
   = (Raise (UnsupportedArchitecture arch), w))
  /\ (arch = "x86_64" -> os ∉ ["linux"; "darwin"; "windows"] ->
      determine_bazel_filename repr version w
      = (Raise (UnsupportedOperatingSystem os), w))
  /\ (arch = "x86_64" -> os ∈ ["linux"; "darwin"; "windows"] ->
      determine_bazel_filename repr version w
      = (Ok ("bazel-" +:+ fmt repr version +:+ "-" +:+ os +:+ "-x86_64"
             +:+ (if bool_decide (os = "windows") then ".exe" else EmptyString)),
         w)).
Proof.
  intros arch os. subst arch os. unfold determine_bazel_filename. mrun.
  rewrite normalized_machine_arch_name_spec. mrun.
  repeat split.
  - intros Hne.
    destruct (String.eqb_spec (normalized (machine w)) "x86_64");
      [contradiction | reflexivity].
  - intros -> Hos. cbn [String.eqb Ascii.eqb Bool.eqb negb]. mrun.
    now rewrite bool_decide_eq_false_2.
  - intros -> Hos. cbn [String.eqb Ascii.eqb Bool.eqb negb]. mrun.
    rewrite bool_decide_eq_true_2 by exact Hos. cbn [negb]. mrun.
    destruct (String.eqb_spec (lower (system w)) "windows") as [E|E].
    + now rewrite bool_decide_eq_true_2.
    + now rewrite bool_decide_eq_false_2.
Qed.

End Filename.

(** ** Launching *)

(** The events of the child process. *)
Definition is_launch (e : event) : bool :=
  match e with
  | EvPopen _ _ | EvWait => true
  | _ => false
  end.

(** [w'] comes from [w] by steps that neither start nor await the child:
    what the launcher depends on is as before, and the events added to the
    trace are no launch events. *)
Definition quiet (w w' : world) : Prop :=
  interrupts w' = interrupts w /\ child_status w' = child_status w
  /\ os_name w' = os_name w
  /\ exists evs, trace w' = trace w ++ evs
                 /\ Forall (fun e => is_launch e = false) evs.

Definition Quiet {A} (m : M A) : Prop := forall w, quiet w (snd (m w)).

Section QuietSteps.

Lemma quiet_refl (w : world) : quiet w w.
Proof.
  repeat split. exists []. split; [now rewrite app_nil_r | constructor].
Qed.

Lemma quiet_trans (w1 w2 w3 : world) :
  quiet w1 w2 -> quiet w2 w3 -> quiet w1 w3.
Proof.
  intros (I1 & C1 & O1 & e1 & T1 & F1) (I2 & C2 & O2 & e2 & T2 & F2).
  repeat split; try congruence.
  exists (e1 ++ e2). split; [rewrite T2, T1; now rewrite app_assoc |].
  now apply Forall_app.
Qed.

Lemma Quiet_ret {A} (a : A) : Quiet (ret a).
Proof. intros w. apply quiet_refl. Qed.

Lemma Quiet_raise {A} (e : exn) : Quiet (@raise A e).
Proof. intros w. apply quiet_refl. Qed.

Lemma Quiet_lift {A} (r : result A) : Quiet (lift r).
Proof. intros w. apply quiet_refl. Qed.

Lemma Quiet_gets {A} (f : world -> A) : Quiet (gets f).
Proof. intros w. apply quiet_refl. Qed.

Lemma Quiet_log (e : event) : is_launch e = false -> Quiet (log e).
Proof.
  intros He w. repeat split. exists [e]. split; [reflexivity |].
  now constructor.
Qed.

Lemma Quiet_set_fs {A} (a : A) (f : gmap string node) :
  Quiet (fun w => (Ok a, set_fs f w)).
Proof.
  intros w. repeat split. exists []. split; [now rewrite app_nil_r | constructor].
Qed.

Lemma Quiet_bind {A B} (m : M A) (f : A -> M B) :
  Quiet m -> (forall a, Quiet (f a)) -> Quiet (bind m f).
Proof.
  intros Hm Hf w. cbn [bind]. specialize (Hm w).
  destruct (m w) as [[a|e] w1]; cbn [snd] in *; [|exact Hm].
  apply (quiet_trans w w1); [exact Hm | apply Hf].
Qed.

Lemma Quiet_try_except {A} (m : M A) (h : exn -> M A) :
  Quiet m -> (forall e, Quiet (h e)) -> Quiet (try_except m h).
Proof.
  intros Hm Hh w. cbn [try_except]. specialize (Hm w).
  destruct (m w) as [[a|e] w1]; cbn [snd] in *; [exact Hm |].
  apply (quiet_trans w w1); [exact Hm | apply Hh].
Qed.

End QuietSteps.

Create HintDb quiet.
#[global] Hint Resolve Quiet_ret Quiet_raise Quiet_lift Quiet_gets Quiet_set_fs
  : quiet.

(** Splits a computation along its binds and branches. *)
Ltac quiet_steps :=
  repeat first
    [ progress eauto with quiet
    | apply Quiet_log; reflexivity
    | apply Quiet_bind; [|intros ?]
    | apply Quiet_try_except; [|intros ?]
    | match goal with
      | |- Quiet (match ?x with _ => _ end) => destruct x
      | |- Quiet (if ?b then _ else _) => destruct b
      end ].

Section QuietProgram.

Variable json_loads : string -> option value.
Variable json_dumps : value -> string.
Variable repr : value -> string.

Lemma Quiet_os_path_exists p : Quiet (os_path_exists p).
Proof. unfold os_path_exists. quiet_steps. Qed.

Lemma Quiet_os_path_isdir p : Quiet (os_path_isdir p).
Proof. unfold os_path_isdir. quiet_steps. Qed.

Lemma Quiet_os_path_getmtime p : Quiet (os_path_getmtime p).
Proof. unfold os_path_getmtime. quiet_steps. Qed.

Lemma Quiet_read_file p : Quiet (read_file p).
Proof. unfold read_file. quiet_steps. Qed.

Lemma Quiet_write_file p d : Quiet (write_file p d).
Proof. unfold write_file. quiet_steps. Qed.

Lemma Quiet_os_chmod p m : Quiet (os_chmod p m).
Proof. unfold os_chmod. quiet_steps. Qed.

Lemma Quiet_os_mkdir p : Quiet (os_mkdir p).
Proof.
  intros w. unfold os_mkdir.
  repeat match goal with
         | |- context [if ?b then _ else _] => destruct b
         | |- context [match ?x with _ => _ end] => destruct x
         end; cbn [snd]; try apply quiet_refl; apply (Quiet_set_fs tt).
Qed.

Lemma Quiet_makedirs_from fuel : forall p, Quiet (makedirs_from fuel p).
Proof.
  pose proof Quiet_os_mkdir.
  induction fuel as [|fuel IH]; intros p; cbn [makedirs_from];
    destruct (makedirs_split p) as [head tail]; quiet_steps.
Qed.

Lemma Quiet_os_makedirs p : Quiet (os_makedirs p).
Proof. pose proof Quiet_makedirs_from. unfold os_makedirs. quiet_steps. Qed.

Lemma Quiet_urlopen_read u : Quiet (urlopen_read u).
Proof. unfold urlopen_read. quiet_steps. Qed.

Lemma Quiet_loads s : Quiet (loads json_loads s).
Proof. unfold loads. quiet_steps. Qed.

Hint Resolve Quiet_os_path_exists Quiet_os_path_isdir Quiet_os_path_getmtime
  Quiet_read_file Quiet_write_file Quiet_os_chmod Quiet_os_makedirs
  Quiet_urlopen_read Quiet_loads : quiet.

Lemma Quiet_find_workspace_root_from fuel :
  forall root, Quiet (find_workspace_root_from fuel root).
Proof.
  induction fuel as [|fuel IH]; intros root; cbn [find_workspace_root_from];
    quiet_steps.
Qed.

Lemma Quiet_find_workspace_root root : Quiet (find_workspace_root root).
Proof.
  unfold find_workspace_root. quiet_steps.
  apply Quiet_find_workspace_root_from.
Qed.

Lemma Quiet_decide : Quiet decide_which_bazel_version_to_use.
Proof.
  unfold decide_which_bazel_version_to_use.
  pose proof Quiet_find_workspace_root. quiet_steps.
Qed.

Lemma Quiet_from_github : Quiet (get_version_history_from_github json_loads).
Proof. unfold get_version_history_from_github. quiet_steps. Qed.

Lemma Quiet_get_version_history dir :
  Quiet (get_version_history json_loads json_dumps dir).
Proof.
  unfold get_version_history. pose proof Quiet_from_github. quiet_steps.
Qed.

Lemma Quiet_resolve dir version :
  Quiet (resolve_version_label_to_number json_loads json_dumps dir version).
Proof.
  unfold resolve_version_label_to_number.
  pose proof Quiet_get_version_history. quiet_steps.
Qed.

Lemma Quiet_determine_bazel_filename version :
  Quiet (determine_bazel_filename repr version).
Proof.
  unfold determine_bazel_filename, normalized_machine_arch_name. quiet_steps.
Qed.

Lemma Quiet_download version directory :
  Quiet (download_bazel_into_directory repr version directory).
Proof.
  unfold download_bazel_into_directory.
  pose proof Quiet_determine_bazel_filename. quiet_steps.
Qed.

Lemma Quiet_maybe_makedirs path : Quiet (maybe_makedirs path).
Proof. unfold maybe_makedirs. quiet_steps. Qed.

End QuietProgram.

Section Launcher.

Variable json_loads : string -> option value.
Variable json_dumps : value -> string.
Variable repr : value -> string.

(** What the wait finally yields. *)
Definition child_outcome (w : world) : result (option Z) :=
  match child_status w with
  | Ok code => Ok (Some code)
  | Raise e => Raise e
  end.

Lemma set_interrupts_same (w : world) :
  set_interrupts (interrupts w) w = w.
Proof. now destruct w. Qed.

(** With enough rounds the loop goes through every interrupt and returns
    what the child yields; each round is one more wait. *)
Lemma wait_loop_spec (n : nat) :
  forall fuel w,
    interrupts w = n -> n <= fuel ->
    child_status w <> Raise KeyboardInterrupt ->
    wait_loop fuel w
    = (child_outcome w,
       set_interrupts 0 (set_trace (trace w ++ replicate (S n) EvWait) w)).
Proof.
  induction n as [|n IH]; intros fuel w Hn Hfuel Hchild.
  - destruct fuel; cbn [wait_loop]; mrun; rewrite Hn; unfold child_outcome;
      mrun; (destruct (child_status w) as [code|e] eqn:E; mrun;
             [|destruct e; try contradiction]);
      cbn [replicate]; rewrite <- Hn at 1;
      now rewrite <- (set_interrupts_same (set_trace _ w)) at 1.
  - destruct fuel as [|fuel]; [lia |]. cbn [wait_loop]. mrun. rewrite Hn. mrun.
    rewrite (IH fuel); mrun; [| reflexivity | lia | exact Hchild].
    unfold child_outcome. mrun. cbn [replicate]. now rewrite <- app_assoc.
Qed.

(** With too few rounds the loop is still waiting: interrupts alone never
    make it return. *)
Lemma wait_loop_still_waiting (fuel : nat) :
  forall w, fuel < interrupts w -> fst (wait_loop fuel w) = Ok None.
Proof.
  induction fuel as [|fuel IH]; intros w H; cbn [wait_loop]; mrun;
    destruct (interrupts w) as [|n] eqn:E; try lia; mrun; [reflexivity |].
  apply IH. mrun. lia.
Qed.

(** The steps of [main] before the launch: the path of the binary. *)
Definition prepare : M string :=
  let* env := gets environ in
  let* h := gets home in
  let bazelisk_directory :=
    default (os_path_join h ".bazelisk") (env !! "BAZELISK_HOME") in
  maybe_makedirs bazelisk_directory;;
  let* bazel_version := decide_which_bazel_version_to_use in
  let* bazel_version :=
    resolve_version_label_to_number json_loads json_dumps bazelisk_directory
      bazel_version in
  let bazel_directory := os_path_join bazelisk_directory "bin" in
  maybe_makedirs bazel_directory;;
  download_bazel_into_directory repr bazel_version bazel_directory.

Lemma main_split (fuel : nat) (argv : list string) (w : world) :
  main json_loads json_dumps repr fuel (Some argv) w
  = bind prepare (fun path => execute_bazel fuel path (drop 1 argv)) w.
Proof.
  unfold main, prepare. cbn [bind ret gets].
  destruct (maybe_makedirs _ w) as [[u|e] w1]; [|reflexivity].
  destruct (decide_which_bazel_version_to_use w1) as [[v|e] w2]; [|reflexivity].
  destruct (resolve_version_label_to_number _ _ _ v w2) as [[v'|e] w3];
    [|reflexivity].
  destruct (maybe_makedirs _ w3) as [[u'|e] w4]; [|reflexivity].
  destruct (download_bazel_into_directory _ v' _ w4) as [[p|e] w5];
    reflexivity.
Qed.

Lemma Quiet_prepare : Quiet prepare.
Proof.
  unfold prepare.
  pose proof Quiet_maybe_makedirs. pose proof Quiet_decide.
  pose proof (Quiet_resolve json_loads json_dumps).
  pose proof (Quiet_download repr). quiet_steps.
Qed.

(** Whether the system starts the program at [path]: it is a regular
    file that the system accepts. *)
Definition starts (w : world) (path : string) : bool :=
  match fs w !! path with
  | Some (NFile content _ mode) => executable w content mode
  | _ => false
  end.

(** What the launch adds to the trace: the start of [path] with the
    arguments, then one wait per pending interrupt and a last one. *)
Definition launch_events (w : world) (path : string) (argv : list string)
  : list event :=
  EvPopen (path :: argv) (negb (String.eqb (os_name w) "nt"))
  :: replicate (S (interrupts w)) EvWait.

(** What a launch comes to. A program that starts is given [argv] and is
    waited for once more after every interrupt; the result is its exit
    code, or the exception that the wait raised. A program that does not
    start leaves the error of the attempt. *)
Definition launched (w : world) (path : string) (argv : list string)
  : result (option Z) * world :=
  if starts w path
  then (child_outcome w,
        set_interrupts 0 (set_trace (trace w ++ launch_events w path argv) w))
  else (Raise OSError,
        set_trace (trace w ++ [EvPopen (path :: argv)
                                 (negb (String.eqb (os_name w) "nt"))]) w).

Lemma execute_bazel_spec (fuel : nat) (path : string) (argv : list string)
  (w : world) :
  interrupts w <= fuel -> child_status w <> Raise KeyboardInterrupt ->
  execute_bazel fuel path argv w = launched w path argv.
Proof.
  intros Hfuel Hchild. unfold execute_bazel, launched, launch_events, starts.
  mrun. cbn [app].
  destruct (fs w !! path) as [[t|d t m]|] eqn:E; mrun; try reflexivity.
  destruct (executable w d m); mrun; [|reflexivity].
  rewrite (wait_loop_spec (interrupts w)); mrun;
    [| reflexivity | exact Hfuel | exact Hchild].
  unfold child_outcome. mrun. now rewrite <- app_assoc.
Qed.

(** The cache directory of a run. *)
Definition bazelisk_directory (w : world) : string :=
  default (os_path_join (home w) ".bazelisk") (environ w !! "BAZELISK_HOME").

(** The path that [download_bazel_into_directory] returns is the file
    name of the platform, in the directory it was given. *)
Lemma download_returns (version : value) (directory p : string)
  (w w1 : world) :
  download_bazel_into_directory repr version directory w = (Ok p, w1) ->
  exists f, fst (determine_bazel_filename repr version w) = Ok f
            /\ p = os_path_join directory f.
Proof.
  unfold download_bazel_into_directory. cbn [bind].
  destruct (determine_bazel_filename repr version w) as [[f|e] w0];
    [|discriminate].
  intros H. exists f. split; [reflexivity |].
  destruct (determine_url version f) as [url|e]; mrun_in H; [|discriminate].
  repeat match type of H with
         | context [bool_decide ?P] => destruct (bool_decide P)
         | context [match ?m !! ?k with _ => _ end] =>
             destruct (m !! k) as [[?|? ? ?]|] eqn:?
         | context [match web ?w !! ?k with _ => _ end] =>
             destruct (web w !! k) eqn:?
         | _ => progress (cbn [negb] in H; mrun_in H)
         end; try discriminate; try (now injection H as <- _).
Qed.

(** The binary that is launched lies in the directory [bin] of the cache
    directory. *)
Lemma prepare_path (path : string) (w w1 : world) :
  prepare w = (Ok path, w1) ->
  exists f, path = os_path_join (os_path_join (bazelisk_directory w) "bin") f.
Proof.
  unfold prepare. cbn [bind gets]. fold (bazelisk_directory w).
  destruct (maybe_makedirs _ w) as [[u|e] w2]; [|discriminate].
  destruct (decide_which_bazel_version_to_use w2) as [[v|e] w3]; [|discriminate].
  destruct (resolve_version_label_to_number _ _ _ v w3) as [[v'|e] w4];
    [|discriminate].
  destruct (maybe_makedirs _ w4) as [[u'|e] w5]; [|discriminate].
  intros H. apply download_returns in H as (f & _ & ->). eauto.
Qed.


End Launcher.

(** ** Every version string falls in one of the three cases *)

Lemma span_digits (s : string) :
  exists d rest, s = d +:+ rest /\ all_chars is_digit d = true
                 /\ head_is is_digit rest = false.
Proof.
  induction s as [|c s (d & rest & -> & Hd & Hr)].
  - now exists EmptyString, EmptyString.
  - destruct (is_digit c) eqn:Hc.
    + exists (String c d), rest. simpl. now rewrite Hc, Hd.
    + exists EmptyString, (String c (d +:+ rest)). simpl. auto.
Qed.

(** No dot after the leading digits; or digits, dot, digits and no further
    dot; or digits, dot, digits, dot, digits. The runs are maximal. *)
Theorem version_shapes (v : string) :
  (exists d1 tail,
     v = d1 +:+ tail /\ all_chars is_digit d1 = true
     /\ head_is is_digit tail = false /\ head_is (Ascii.eqb ".") tail = false)
  \/ (exists d1 d2 tail,
        v = d1 +:+ "." +:+ d2 +:+ tail
        /\ all_chars is_digit d1 = true /\ all_chars is_digit d2 = true
        /\ head_is is_digit tail = false
        /\ head_is (Ascii.eqb ".") tail = false)
  \/ (exists d1 d2 d3 tail,
        v = d1 +:+ "." +:+ d2 +:+ "." +:+ d3 +:+ tail
        /\ all_chars is_digit d1 = true /\ all_chars is_digit d2 = true
        /\ all_chars is_digit d3 = true /\ head_is is_digit tail = false).
Proof.
  destruct (span_digits v) as (d1 & r1 & -> & H1 & T1).
  destruct r1 as [|c r1]; [left; exists d1, EmptyString; auto |].
  destruct (Ascii.eqb_spec "." c) as [<-|Hc].
  - destruct (span_digits r1) as (d2 & r2 & -> & H2 & T2).
    destruct r2 as [|c2 r2].
    + right. left. exists d1, d2, EmptyString. auto.
    + destruct (Ascii.eqb_spec "." c2) as [<-|Hc2].
      * destruct (span_digits r2) as (d3 & r3 & -> & H3 & T3).
        right. right. exists d1, d2, d3, r3. auto.
      * right. left. exists d1, d2, (String c2 r2). repeat split; auto.
        cbn [head_is]. now apply Ascii.eqb_neq.
  - left. exists d1, (String c r1). repeat split; auto.
    cbn [head_is]. now apply Ascii.eqb_neq.
Qed.

(** ** [strip] trims white space, and nothing else *)

Lemma lstrip_with_spec (p : ascii -> bool) (s : string) :
  exists l, s = l +:+ lstrip_with p s /\ all_chars p l = true
            /\ head_is p (lstrip_with p s) = false.
Proof.
  induction s as [|c s (l & IH & Hl & Hh)]; simpl.
  - now exists EmptyString.
  - destruct (p c) eqn:Hc.
    + exists (String c l). simpl. rewrite Hc, Hl. repeat split; auto.
      now rewrite IH at 1.
    + exists EmptyString. simpl. auto.
Qed.

Lemma rstrip_with_spec (p : ascii -> bool) (s : string) :
  exists r, s = rstrip_with p s +:+ r /\ all_chars p r = true
            /\ last_is p (rstrip_with p s) = false.
Proof.
  induction s as [|c s (r & IH & Hr & Hl)]; simpl.
  - now exists EmptyString.
  - destruct (rstrip_with p s) as [|d t] eqn:E.
    + simpl in IH. subst r. destruct (p c) eqn:Hc.
      * exists (String c s). simpl. now rewrite Hc, Hr.
      * exists s. simpl. now rewrite Hc.
    + exists r. repeat split; auto. simpl in IH |- *. now rewrite IH at 1.
Qed.

Lemma rstrip_with_head (p : ascii -> bool) (s : string) :
  head_is p s = false -> head_is p (rstrip_with p s) = false.
Proof.
  destruct s as [|c s]; simpl; [auto |]. intros Hc.
  destruct (rstrip_with p s); [now rewrite Hc | exact Hc].
Qed.

(** The text is white space, then its stripped form, then white space; the
    stripped form neither starts nor ends with white space. *)
Theorem strip_spec (s : string) :
  exists l r, s = l +:+ strip s +:+ r
              /\ all_chars is_space l = true /\ all_chars is_space r = true
              /\ head_is is_space (strip s) = false
              /\ last_is is_space (strip s) = false.
Proof.
  unfold strip. destruct (lstrip_with_spec is_space s) as (l & Hs & Hl & Hh).
  destruct (rstrip_with_spec is_space (lstrip_with is_space s))
    as (r & Hs' & Hr & Hlast).
  exists l, r. repeat split; auto.
  - now rewrite <- Hs'.
  - now apply rstrip_with_head.
Qed.

(** * Worked examples *)

(** A stand-in for the JSON codec on the two texts the examples use. *)
Definition sample_history : value := VList [VStr "0.20.0"; VStr "0.19.2"].

Definition sample_cache_text : string := "[0.20.0, 0.19.2]".

Definition sample_listing : value :=
  VList [ VDict [("tag_name", VStr "0.19.2"); ("prerelease", VBool false)];
          VDict [("tag_name", VStr "0.21.0rc1"); ("prerelease", VBool true)];
          VDict [("tag_name", VStr "0.20.0"); ("prerelease", VBool false)] ].

Definition sample_listing_text : string := "<release listing>".

Definition sample_loads (s : string) : option value :=
  if String.eqb s sample_cache_text then Some sample_history
  else if String.eqb s sample_listing_text then Some sample_listing
  else None.

Definition sample_dumps (v : value) : string := sample_cache_text.

Definition sample_repr (v : value) : string := "<value>".

Definition sample_dir : string := "/home/user/.bazelisk".

(** Whole seconds as times. *)
Definition seconds (z : Z) : float := float_of_int z.

(** The program that is served: a script that exits with 3. *)
Definition sample_program : string :=
  "#!/bin/sh" +:+ newline +:+ "exit 3" +:+ newline.

Definition sample_url : string :=
  "https://releases.bazel.build/4.5.6/release/bazel-4.5.6-linux-x86_64".

(** A project with a pinned version, a cache written a thousand seconds
    ago, and a child that exits with 3 after two interrupts. The system
    starts the scripts that their owner may execute. *)
Definition sample_world : world :=
  {| environ := ∅;
     cwd := "/home/user/project/src";
     home := "/home/user";
     fs := {[ "/" := NDir (seconds 0);
              "/home" := NDir (seconds 0);
              "/home/user" := NDir (seconds 0);
              "/home/user/project" := NDir (seconds 0);
              "/home/user/project/src" := NDir (seconds 0);
              "/home/user/project/WORKSPACE"
                := NFile EmptyString (seconds 0) 420%N;
              "/home/user/project/.bazelversion"
                := NFile ("  4.5.6" +:+ newline) (seconds 0) 420%N;
              "/home/user/.bazelisk" := NDir (seconds 1000);
              "/home/user/.bazelisk/latest_bazel"
                := NFile sample_cache_text (seconds 1000) 420%N ]};
     now := seconds 2000;
     web := {[ BAZEL_RELEASES_URL := sample_listing_text;
               sample_url := sample_program ]};
     machine := "x86_64";
     system := "Linux";
     os_name := "posix";
     sys_argv := ["bazelisk"; "build"; "//..."];
     executable := fun content mode =>
                     startswith content "#!/bin/sh" && N.testbit mode 6;
     interrupts := 2;
     child_status := Ok 3%Z;
     trace := [] |}.

Definition with_environ (e : gmap string string) (w : world) : world :=
  mkWorld e (cwd w) (home w) (fs w) (now w) (web w) (machine w) (system w)
    (os_name w) (sys_argv w) (executable w) (interrupts w) (child_status w)
    (trace w).

Definition with_now (t : float) (w : world) : world :=
  mkWorld (environ w) (cwd w) (home w) (fs w) t (web w) (machine w) (system w)
    (os_name w) (sys_argv w) (executable w) (interrupts w) (child_status w)
    (trace w).

Definition with_platform (m s : string) (w : world) : world :=
  mkWorld (environ w) (cwd w) (home w) (fs w) (now w) (web w) m s
    (os_name w) (sys_argv w) (executable w) (interrupts w) (child_status w)
    (trace w).

Definition stale_world : world := with_now (seconds 5000) sample_world.

(** The override is set to the empty string. *)
Definition empty_override_world : world :=
  with_environ {[ "USE_BAZEL_VERSION" := EmptyString ]} sample_world.

Lemma not_str_in (needle hay : string) :
  str_in needle hay = false ->
  forall before after, hay <> before +:+ needle +:+ after.
Proof.
  intros H before after E.
  assert (str_in needle hay = true) by (apply str_in_spec; eauto).
  congruence.
Qed.

Lemma sample_cache_fresh :
  within_the_hour (now sample_world) (seconds 1000) = true.
Proof. reflexivity. Qed.

Lemma sample_cache_stale : cache_miss sample_dir stale_world.
Proof.
  right. exists (NFile sample_cache_text (seconds 1000) 420%N).
  split; reflexivity.
Qed.

Lemma sample_root :
  nearest_root (fs sample_world) (cwd sample_world) "/home/user/project".
Proof.
  exists 1. split; [reflexivity |]. split.
  - eexists. reflexivity.
  - intros j Hj. assert (j = 0) as -> by lia. intros [x Hx]. discriminate.
Qed.

Lemma sample_listing_plain :
  Forall plain_release
    [ VDict [("tag_name", VStr "0.19.2"); ("prerelease", VBool false)];
      VDict [("tag_name", VStr "0.21.0rc1"); ("prerelease", VBool true)];
      VDict [("tag_name", VStr "0.20.0"); ("prerelease", VBool false)] ].
Proof.
  repeat constructor.
  - eexists _, false. repeat split. right. exists "0.19.2".
    repeat split; [discriminate |]. repeat constructor; eexists; reflexivity.
  - eexists _, true. repeat split. now left.
  - eexists _, false. repeat split. right. exists "0.20.0".
    repeat split; [discriminate |]. repeat constructor; eexists; reflexivity.
Qed.

(** *** Resolution *)

Lemma C1_latest_offset_indexes_history_witness :
  exists v, [VStr "0.20.0"; VStr "0.19.2"] !! 1 = Some v
    /\ resolve_version_label_to_number sample_loads sample_dumps sample_dir
         "latest-1" sample_world
       = (Ok v,
          snd (get_version_history sample_loads sample_dumps sample_dir
                 sample_world)).
Proof.
  refine (proj1 (C1_latest_offset_indexes_history sample_loads sample_dumps
                   sample_dir "latest-1" 1 [VStr "0.20.0"; VStr "0.19.2"]
                   sample_world _
                   (label_latest_n "1" _ eq_refl) _) _).
  - discriminate.
  - vm_compute. reflexivity.
  - simpl. lia.
Defined.

Example resolve_latest : 
  fst (resolve_version_label_to_number sample_loads sample_dumps sample_dir
         "latest" sample_world) = Ok (VStr "0.20.0").
Proof. vm_compute. reflexivity. Qed.

Example resolve_out_of_range :
  fst (resolve_version_label_to_number sample_loads sample_dumps sample_dir
         "latest-5" sample_world)
  = Raise (Exception ("Cannot resolve version " +:+ dquote +:+ "latest-5"
                      +:+ dquote +:+ ": There are only 2 Bazel releases.")).
Proof. vm_compute. reflexivity. Qed.

Lemma C2_literal_label_unchanged_witness :
  resolve_version_label_to_number sample_loads sample_dumps sample_dir
    "0.20.0" sample_world
  = (Ok (VStr "0.20.0"), sample_world).
Proof.
  apply C2_literal_label_unchanged. apply not_str_in. reflexivity.
Defined.

Lemma C3_malformed_latest_label_rejected_witness :
  resolve_version_label_to_number sample_loads sample_dumps sample_dir
    "latest2" sample_world
  = (Raise (InvalidVersionLabel "latest2"), sample_world).
Proof.
  refine (proj1 (C3_malformed_latest_label_rejected sample_loads sample_dumps
                   sample_dir "latest2" EmptyString "2" sample_world _ _));
    reflexivity.
Defined.

(** [$] also matches before a final newline, so [re.match] accepts the
    label [latest] followed by a newline. *)
Example latest_newline_accepted :
  Re.re_match LATEST_PATTERN ("latest" +:+ newline) = Some []
  /\ Re.re_match LATEST_PATTERN_SPEC ("latest" +:+ newline) = Some [].
Proof. split; reflexivity. Qed.

(** *** The cache *)

Lemma C4_cache_used_iff_fresh_witness :
  get_version_history sample_loads sample_dumps sample_dir sample_world
  = (Ok sample_history,
     set_trace [EvExists (latest_cache sample_dir);
                EvGetmtime (latest_cache sample_dir);
                EvRead (latest_cache sample_dir)] sample_world).
Proof.
  exact (proj1 (C4_cache_used_iff_fresh sample_loads sample_dumps sample_dir
                  sample_world)
           (NFile sample_cache_text (seconds 1000) 420%N) eq_refl
           sample_cache_fresh).
Defined.

(** The doubles nearest to 0.1 and to 3600.1: the ratios
    7205759403792794 / 2^56 and 7916703622312755 / 2^41. *)
Definition tenth : float := S754_finite false 7205759403792794 (-56).
Definition hour_and_tenth : float := S754_finite false 7916703622312755 (-41).

(** The cache was written at 0.1 s, and it is 3600.1 s now. *)
Definition boundary_world : world :=
  with_now hour_and_tenth
    (set_fs (<[latest_cache sample_dir := NFile sample_cache_text tenth 420%N]>
               (fs sample_world))
       sample_world).

(** The two times are less than 3600 s apart, by about 10^-13 s, yet the
    cache is not used: the difference of the two doubles rounds to 3600,
    and the release listing is requested. *)
Lemma C4_counterexample :
  fs boundary_world !! latest_cache sample_dir
  = Some (NFile sample_cache_text tenth 420%N)
  /\ float_value (now boundary_world)
     = Some (7916703622312755 # 2199023255552)%Q
  /\ float_value tenth = Some (7205759403792794 # 72057594037927936)%Q
  /\ (Qabs ((7916703622312755 # 2199023255552)
            - (7205759403792794 # 72057594037927936)) < 3600)%Q
  /\ float_sub (now boundary_world) tenth = seconds 3600
  /\ trace (snd (get_version_history sample_loads sample_dumps sample_dir
                   boundary_world))
     = [EvExists (latest_cache sample_dir);
        EvGetmtime (latest_cache sample_dir);
        EvUrlopen BAZEL_RELEASES_URL;
        EvWrite (latest_cache sample_dir)].
Proof. repeat split; vm_compute; reflexivity. Qed.

(** The age test at whole seconds: an hour less a second passes, in
    either direction, and the full hour does not. *)
Example age_test_at_seconds :
  within_the_hour (seconds 4599) (seconds 1000) = true
  /\ within_the_hour (seconds 1000) (seconds 4599) = true
  /\ within_the_hour (seconds 4600) (seconds 1000) = false
  /\ within_the_hour (seconds 1000) (seconds 4600) = false.
Proof. repeat split; reflexivity. Qed.


Example refresh_result :
  fst (get_version_history sample_loads sample_dumps sample_dir stale_world)
  = Ok (VList [VStr "0.20.0"; VStr "0.19.2"]).
Proof. vm_compute. reflexivity. Qed.

(** *** Selection *)

(** An empty override is returned as it is, although the project pins
    [4.5.6]: the override is not required to be non-empty. *)
Lemma C6_counterexample :
  environ empty_override_world !! "USE_BAZEL_VERSION" = Some EmptyString
  /\ nearest_root (fs empty_override_world) (cwd empty_override_world)
       "/home/user/project"
  /\ fs empty_override_world !! "/home/user/project/.bazelversion"
     = Some (NFile ("  4.5.6" +:+ newline) (seconds 0) 420%N)
  /\ fst (decide_which_bazel_version_to_use empty_override_world)
     = Ok EmptyString
  /\ fst (decide_which_bazel_version_to_use empty_override_world)
     <> Ok "4.5.6".
Proof.
  split; [reflexivity |]. split; [exact sample_root |].
  split; [reflexivity |]. split; [reflexivity | discriminate].
Qed.

Lemma C6_selection_priority_witness :
  fst (decide_which_bazel_version_to_use sample_world) = Ok "4.5.6".
Proof.
  refine (proj1 (proj2 (C6_selection_priority sample_world) eq_refl)
            "/home/user/project" ("  4.5.6" +:+ newline) (seconds 0) 420%N
            sample_root _ eq_refl).
  discriminate.
Defined.

Example override_short_circuits :
  decide_which_bazel_version_to_use
    (with_environ {[ "USE_BAZEL_VERSION" := "1.2.3" ]} sample_world)
  = (Ok "1.2.3",
     with_environ {[ "USE_BAZEL_VERSION" := "1.2.3" ]} sample_world).
Proof. reflexivity. Qed.

(** *** Location *)

(** The base pattern as the specification writes it: [\d+\.\d+(\.\d+)?]. *)
Definition BASE_PATTERN_SPEC : Re.regex :=
  Re.RSeq Re.digits1
    (Re.RSeq (Re.lit_char ".")
       (Re.RSeq Re.digits1 (Re.ROpt (Re.RSeq (Re.lit_char ".") Re.digits1)))).

(** The version [.] has the base [.], which has no digit at all. *)
Lemma C7_counterexample :
  determine_url (VStr ".") "bazel"
  = Ok "https://releases.bazel.build/./release/bazel"
  /\ Re.re_match URL_PATTERN "." = Some [("1", ".")]
  /\ Re.re_fullmatch BASE_PATTERN_SPEC "." = None.
Proof. repeat split; reflexivity. Qed.

Lemma C7_url_from_base_and_segment_witness :
  determine_url (VStr "0.20.0rc1") "bazel"
  = Ok "https://releases.bazel.build/0.20.0/rc1/bazel".
Proof.
  exact (proj1 (proj2 (C7_url_from_base_and_segment "bazel"))
           "0" "20" "0" "rc1" eq_refl eq_refl eq_refl eq_refl).
Defined.

Lemma C8_filename_by_platform_witness :
  determine_bazel_filename sample_repr (VStr "1.0.0") sample_world
  = (Ok "bazel-1.0.0-linux-x86_64", sample_world).
Proof.
  refine (proj2 (proj2 (C8_filename_by_platform sample_repr (VStr "1.0.0")
                          sample_world)) eq_refl _).
  vm_compute. constructor.
Defined.

Example filename_on_windows :
  fst (determine_bazel_filename sample_repr (VStr "1.0.0")
         (with_platform "AMD64" "Windows" sample_world))
  = Ok "bazel-1.0.0-windows-x86_64.exe".
Proof. reflexivity. Qed.

Example unsupported_architecture :
  fst (determine_bazel_filename sample_repr (VStr "1.0.0")
         (with_platform "arm64" "Linux" sample_world))
  = Raise (UnsupportedArchitecture "arm64").
Proof. reflexivity. Qed.

Lemma C10_unvalidated_label_breaks_url_derivation_witness :
  resolve_version_label_to_number sample_loads sample_dumps sample_dir "abc"
    sample_world
  = (Ok (VStr "abc"), sample_world)
  /\ determine_url (VStr "abc") "bazel" = Raise AttributeError.
Proof.
  pose proof (C10_unvalidated_label_breaks_url_derivation sample_loads
                sample_dumps sample_dir EmptyString "abc" "bazel"
                sample_world eq_refl eq_refl eq_refl eq_refl)
    as (H1 & _ & H2 & _).
  exact (conj H1 H2).
Defined.

(** *** Launch *)


(** A whole run: the pinned version is fetched and started with the
    arguments [build //...]; the two interrupts are waited through and the
    exit code of the child is returned. *)
Example main_run :
  fst (main sample_loads sample_dumps sample_repr 5 None sample_world)
  = Ok (Some 3%Z)
  /\ EvPopen ["/home/user/.bazelisk/bin/bazel-4.5.6-linux-x86_64"; "build";
              "//..."] true
     ∈ trace (snd (main sample_loads sample_dumps sample_repr 5 None
                     sample_world)).
Proof.
  split; [vm_compute; reflexivity |]. vm_compute. repeat constructor.
Qed.

(** On a system that does not start the script, the run ends with the
    error of the attempt, after the one attempt. *)
Definition refusing_world : world :=
  mkWorld (environ sample_world) (cwd sample_world) (home sample_world)
    (fs sample_world) (now sample_world) (web sample_world)
    (machine sample_world) (system sample_world) (os_name sample_world)
    (sys_argv sample_world) (fun _ _ => false) (interrupts sample_world)
    (child_status sample_world) (trace sample_world).

Example main_cannot_start :
  fst (main sample_loads sample_dumps sample_repr 5 None refusing_world)
  = Raise OSError
  /\ last (trace (snd (main sample_loads sample_dumps sample_repr 5 None
                         refusing_world)))
     = Some (EvPopen ["/home/user/.bazelisk/bin/bazel-4.5.6-linux-x86_64";
                      "build"; "//..."] true).
Proof. split; vm_compute; reflexivity. Qed.

(** * Further properties of the program *)

(** ** Frames: what a computation leaves as it was *)

Section Frame.

(** [R w w'] relates a world to the worlds a computation may leave; a
    computation keeps [R] when every run does. *)
Context (R : world -> world -> Prop).
Hypothesis R_refl : forall w, R w w.
Hypothesis R_trans : forall a b c, R a b -> R b c -> R a c.

Definition Keeps {A} (m : M A) : Prop := forall w, R w (snd (m w)).

Lemma Keeps_ret {A} (a : A) : Keeps (ret a).
Proof. intros w. apply R_refl. Qed.

Lemma Keeps_raise {A} (e : exn) : Keeps (@raise A e).
Proof. intros w. apply R_refl. Qed.

Lemma Keeps_lift {A} (r : result A) : Keeps (lift r).
Proof. intros w. apply R_refl. Qed.

Lemma Keeps_gets {A} (f : world -> A) : Keeps (gets f).
Proof. intros w. apply R_refl. Qed.

Lemma Keeps_bind {A B} (m : M A) (f : A -> M B) :
  Keeps m -> (forall a, Keeps (f a)) -> Keeps (bind m f).
Proof.
  intros Hm Hf w. cbn [bind]. specialize (Hm w).
  destruct (m w) as [[a|e] w1]; cbn [snd] in *; [|exact Hm].
  apply (R_trans w w1); [exact Hm | apply Hf].
Qed.

(** The continuation may use that the pure step returned its argument. *)
Lemma Keeps_bind_lift {A B} (r : result A) (f : A -> M B) :
  (forall a, r = Ok a -> Keeps (f a)) -> Keeps (bind (lift r) f).
Proof.
  intros Hf w. cbn [bind lift]. destruct r as [a|e]; cbn [snd].
  - now apply Hf.
  - apply R_refl.
Qed.

Lemma Keeps_try_except {A} (m : M A) (h : exn -> M A) :
  Keeps m -> (forall e, Keeps (h e)) -> Keeps (try_except m h).
Proof.
  intros Hm Hh w. cbn [try_except]. specialize (Hm w).
  destruct (m w) as [[a|e] w1]; cbn [snd] in *; [exact Hm |].
  apply (R_trans w w1); [exact Hm | apply Hh].
Qed.

End Frame.

(** *** Looking only: the world changes by probes in the trace alone *)

Definition is_probe (e : event) : bool :=
  match e with
  | EvExists _ | EvRead _ => true
  | _ => false
  end.

(** [w'] is [w] with events added that only test for a path or read a
    file. *)
Definition probed (w w' : world) : Prop :=
  exists evs, w' = set_trace (trace w ++ evs) w
              /\ Forall (fun e => is_probe e = true) evs.

Lemma set_trace_same (w : world) : set_trace (trace w) w = w.
Proof. now destruct w. Qed.

Lemma probed_refl (w : world) : probed w w.
Proof.
  exists []. split; [|constructor]. now rewrite app_nil_r, set_trace_same.
Qed.

Lemma probed_trans (a b c : world) : probed a b -> probed b c -> probed a c.
Proof.
  intros (e1 & -> & F1) (e2 & -> & F2). exists (e1 ++ e2). split.
  - cbn [set_trace trace]. now rewrite app_assoc.
  - now apply Forall_app.
Qed.

Definition Probing {A} (m : M A) : Prop := Keeps probed m.

Lemma Probing_log (e : event) : is_probe e = true -> Probing (log e).
Proof. intros He w. exists [e]. split; [reflexivity | now constructor]. Qed.

Ltac probing_steps :=
  repeat first
    [ solve [auto]
    | apply (Keeps_ret probed probed_refl)
    | apply (Keeps_raise probed probed_refl)
    | apply (Keeps_lift probed probed_refl)
    | apply (Keeps_gets probed probed_refl)
    | apply Probing_log; reflexivity
    | apply (Keeps_bind probed probed_trans); [|intros ?]
    | match goal with
      | |- Keeps probed (match ?x with _ => _ end) => destruct x
      | |- Keeps probed (if ?b then _ else _) => destruct b
      | |- Probing _ => unfold Probing
      end ].

Section LookingOnly.

Lemma Probing_os_path_exists p : Probing (os_path_exists p).
Proof. unfold os_path_exists. probing_steps. Qed.

Lemma Probing_read_file p : Probing (read_file p).
Proof. unfold read_file. probing_steps. Qed.

Lemma Probing_find_workspace_root_from fuel :
  forall root, Probing (find_workspace_root_from fuel root).
Proof.
  pose proof Probing_os_path_exists as He. unfold Probing in He.
  induction fuel as [|fuel IH]; intros root; cbn [find_workspace_root_from];
    probing_steps. apply IH.
Qed.

Lemma Probing_find_workspace_root root : Probing (find_workspace_root root).
Proof.
  unfold find_workspace_root. probing_steps.
  apply Probing_find_workspace_root_from.
Qed.

Lemma Probing_decide : Probing decide_which_bazel_version_to_use.
Proof.
  unfold decide_which_bazel_version_to_use.
  pose proof Probing_find_workspace_root as Hf.
  pose proof Probing_os_path_exists as He.
  pose proof Probing_read_file as Hr. unfold Probing in Hf, He, Hr.
  probing_steps.
Qed.

(** X2. Choosing the version only looks: whatever it returns, the file
    system, the environment and the rest of the world are as before, and
    the accesses it makes are tests for a path and reads of a file; it
    writes nothing and requests nothing. *)
Theorem X2_selection_only_looks (w : world) :
  exists evs,
    snd (decide_which_bazel_version_to_use w) = set_trace (trace w ++ evs) w
    /\ Forall (fun e => exists p, e = EvExists p \/ e = EvRead p) evs.
Proof.
  destruct (Probing_decide w) as (evs & Hw & Hf). exists evs.
  split; [exact Hw |]. eapply Forall_impl; [exact Hf |].
  intros [] H; try discriminate; eauto.
Qed.

End LookingOnly.

(** X3. Without an override, when the nearest project root holds a
    [.bazelversion] file, the label returned is the text of the file with
    the white space at both ends removed: it neither starts nor ends with
    white space, and the text is white space, the label, white space. *)
Theorem X3_pinned_version_is_trimmed_text
  (w : world) (root text : string) (mt : float) (mode : N) :
  environ w !! "USE_BAZEL_VERSION" = None ->
  nearest_root (fs w) (cwd w) root -> root <> EmptyString ->
  fs w !! os_path_join root ".bazelversion" = Some (NFile text mt mode) ->
  exists v l r,
    fst (decide_which_bazel_version_to_use w) = Ok v
    /\ text = l +:+ v +:+ r
    /\ all_chars is_space l = true /\ all_chars is_space r = true
    /\ head_is is_space v = false /\ last_is is_space v = false.
Proof.
  intros Henv Hn Hne Hfile.
  destruct (decide_without_override w Henv) as (found & Hf & Hd).
  pose proof (find_workspace_root_spec w) as (t & _ & Hr). rewrite Hf in Hr.
  destruct found as [r0|].
  - rewrite (nearest_root_unique _ _ _ _ Hr Hn) in Hd.
    cbn [pinned_or_latest] in Hd.
    destruct (String.eqb_spec root EmptyString); [contradiction |].
    rewrite Hfile in Hd. destruct (strip_spec text) as (l & r & H).
    exists (strip text), l, r. split; [exact Hd | exact H].
  - destruct Hn as (k & -> & Hm & _). now destruct (Hr k).
Qed.

Section Labels.
Import Re ReFacts.

Variable json_loads : string -> option value.
Variable json_dumps : value -> string.

Let resolve := resolve_version_label_to_number json_loads json_dumps.

(** X4. Resolution of a symbolic label depends on the offset it denotes
    only: [latest-0] resolves as [latest], and [latest-007] as
    [latest-7]. *)
Theorem X4_labels_of_one_offset_resolve_alike
  (dir l1 l2 : string) (N : nat) (w : world) :
  latest_label l1 N -> latest_label l2 N ->
  resolve dir l1 w = resolve dir l2 w.
Proof.
  intros H1 H2. unfold resolve.
  now rewrite (resolve_symbolic _ _ dir l1 N w H1),
    (resolve_symbolic _ _ dir l2 N w H2).
Qed.

Lemma latest_match_offset_newline (ds : string) :
  ds <> EmptyString -> all_chars is_digit ds = true ->
  exists m, re_match LATEST_PATTERN ("latest-" +:+ ds +:+ newline) = Some m
            /\ group "offset" m = Some ds.
Proof.
  intros Hne Hds. destruct ds as [|d ds]; [contradiction |].
  simpl in Hds. apply andb_true_iff in Hds as [Hd Hds].
  exists [("1", String "-" (String d ds)); ("offset", String d ds)].
  split; [|reflexivity].
  unfold re_match, LATEST_PATTERN. cbn [rx lit lit_char digits1 digit digits0].
  cbn [String.append cs_mem Ascii.eqb Bool.eqb]. rewrite Hd.
  erewrite star_greedy; [reflexivity | exact Hds | reflexivity |].
  change (at_eos newline) with true. cbn iota.
  change (String d (ds +:+ newline)) with (String d ds +:+ newline).
  change (String "-" (String d ds +:+ newline))
    with (String "-" (String d ds) +:+ newline).
  now rewrite !consumed_app.
Qed.

(** X5. One newline at the end of a symbolic label is tolerated: the
    label with the newline resolves exactly as the label without it. *)
Theorem X5_final_newline_is_tolerated
  (dir label : string) (N : nat) (w : world) :
  latest_label label N ->
  resolve dir (label +:+ newline) w = resolve dir label w.
Proof.
  intros H. unfold resolve. rewrite (resolve_symbolic _ _ dir label N w H).
  destruct H as [|ds Hne Hds]; unfold resolve_version_label_to_number.
  - reflexivity.
  - destruct (latest_match_offset_newline ds Hne Hds) as (m & Hm & Hg).
    replace (str_in "latest" (("latest-" +:+ ds) +:+ newline)) with true
      by reflexivity.
    replace (("latest-" +:+ ds) +:+ newline)
      with ("latest-" +:+ ds +:+ newline) by reflexivity.
    rewrite Hm, Hg. unfold or_else.
    destruct (String.eqb_spec ds EmptyString); [contradiction | reflexivity].
Qed.

End Labels.

(** ** More on the release cache *)

Definition with_web (pages : gmap string string) (w : world) : world :=
  mkWorld (environ w) (cwd w) (home w) (fs w) (now w) pages (machine w)
    (system w) (os_name w) (sys_argv w) (executable w) (interrupts w)
    (child_status w) (trace w).

Lemma set_fs_same (w : world) : set_fs (fs w) w = w.
Proof. now destruct w. Qed.

Section CacheMore.

Variable json_loads : string -> option value.
Variable json_dumps : value -> string.

Let history_of := get_version_history json_loads json_dumps.
Let from_github := get_version_history_from_github json_loads.
Let resolve := resolve_version_label_to_number json_loads json_dumps.

(** The world a successful refresh leaves: the cache file holds the dump
    of the history, stamped with the time of the call. *)
Lemma refresh_leaves (dir : string) (w w1 : world) (h : value) :
  cache_miss dir w -> history_of dir w = (Ok h, w1) ->
  exists mode,
    w1 = set_fs (<[latest_cache dir := NFile (json_dumps h) (now w) mode]> (fs w))
           (set_trace (trace w ++ probes dir w
                       ++ [EvUrlopen BAZEL_RELEASES_URL;
                           EvWrite (latest_cache dir)]) w)
    /\ from_github (set_trace (trace w ++ probes dir w) w)
       = (Ok h, set_trace ((trace w ++ probes dir w)
                           ++ [EvUrlopen BAZEL_RELEASES_URL]) w).
Proof.
  intros Hmiss H. unfold history_of in H.
  rewrite (cache_miss_refreshes _ _ dir w Hmiss) in H. cbn [bind] in H.
  pose proof (from_github_world json_loads
                (set_trace (trace w ++ probes dir w) w)) as Hw.
  unfold from_github.
  destruct (get_version_history_from_github json_loads _) as [[h0|e] w2];
    [|discriminate].
  cbn [snd] in Hw. subst w2. unfold write_file in H. mrun_in H.
  destruct (fs w !! latest_cache dir) as [[t|d t m]|]; mrun_in H;
    [discriminate | |]; injection H as <- <-; eexists; (split; [|reflexivity]);
    mrun; now rewrite <- !app_assoc.
Qed.

(** X6. A history written by a refresh is what the next lookup returns,
    without any request, as long as the time of that lookup passes the age
    test against the time of the refresh (the rounded difference of the
    two doubles is less than 3600 away from zero, before or after) and the
    JSON codec reads back what it wrote. *)
Theorem X6_refreshed_cache_serves_the_next_lookup
  (dir : string) (w w1 : world) (h : value) (t' : float) :
  cache_miss dir w -> history_of dir w = (Ok h, w1) ->
  within_the_hour t' (now w) = true ->
  json_loads (strip (json_dumps h)) = Some h ->
  history_of dir (with_now t' w1)
  = (Ok h,
     set_trace (trace w1 ++ [EvExists (latest_cache dir);
                             EvGetmtime (latest_cache dir);
                             EvRead (latest_cache dir)]) (with_now t' w1)).
Proof.
  intros Hmiss H Hfresh Hcodec.
  destruct (refresh_leaves dir w w1 h Hmiss H) as (mode & -> & _).
  unfold history_of.
  rewrite (cache_hit json_loads json_dumps dir _
             (NFile (json_dumps h) (now w) mode)).
  - now rewrite Hcodec.
  - cbn [fs with_now set_fs set_trace]. apply lookup_insert_eq.
  - exact Hfresh.
Qed.

(** X7. A lookup of the history that raises has written nothing: the
    world is as before, up to the trace. *)
Theorem X7_failed_lookup_writes_nothing
  (dir : string) (w w' : world) (e : exn) :
  history_of dir w = (Raise e, w') ->
  exists evs, w' = set_trace (trace w ++ evs) w.
Proof.
  intros H. unfold history_of in H.
  assert (Hcase : (exists n, fs w !! latest_cache dir = Some n
                     /\ within_the_hour (now w) (node_mtime n) = true)
                  \/ cache_miss dir w).
  { unfold cache_miss. destruct (fs w !! latest_cache dir) as [n|]; [|auto].
    destruct (within_the_hour (now w) (node_mtime n)) eqn:E;
      [left | right; right]; eauto. }
  destruct Hcase as [(n & Hf & Hfresh) | Hmiss].
  - rewrite (cache_hit _ _ dir w n Hf Hfresh) in H. injection H as _ <-.
    eauto.
  - rewrite (cache_miss_refreshes _ _ dir w Hmiss) in H. cbn [bind] in H.
    pose proof (from_github_world json_loads
                  (set_trace (trace w ++ probes dir w) w)) as Hw.
    destruct (get_version_history_from_github json_loads _) as [[h0|e0] w2];
      cbn [snd] in Hw; subst w2.
    + unfold write_file in H. mrun_in H.
      destruct (fs w !! latest_cache dir) as [[t|d t m]|]; mrun_in H;
        [|discriminate ..]. injection H as _ <-.
      eexists. now rewrite <- !app_assoc.
    + injection H as _ <-. mrun. eexists. now rewrite <- app_assoc.
Qed.

(** X8. There is no fall-back to an old cache: when the cache file is
    absent or fails the age test and the release listing cannot be
    fetched, the lookup raises the network error, although an old file may
    still be there. *)
Theorem X8_no_fallback_to_stale_cache (dir : string) (w : world) :
  cache_miss dir w -> web w !! BAZEL_RELEASES_URL = None ->
  history_of dir w
  = (Raise URLError,
     set_trace (trace w ++ probes dir w ++ [EvUrlopen BAZEL_RELEASES_URL]) w).
Proof.
  intros Hmiss Hweb. unfold history_of.
  rewrite (cache_miss_refreshes _ _ dir w Hmiss).
  unfold get_version_history_from_github. mrun. rewrite Hweb. mrun.
  now rewrite <- app_assoc.
Qed.


(** A JSON value that is no container. *)
Definition scalar (v : value) : Prop :=
  v = VNone \/ (exists b, v = VBool b) \/ (exists q, v = VNum q).

(** X10. The cache is not validated: while a cache file that passes the
    age test holds JSON that is [null], a Boolean or a number, every
    symbolic label fails with [TypeError], and no refresh is attempted. *)
Theorem X10_scalar_cache_breaks_symbolic_labels
  (dir label text : string) (offset : nat) (mt : float) (mode : N) (v : value)
  (w : world) :
  latest_label label offset ->
  fs w !! latest_cache dir = Some (NFile text mt mode) ->
  within_the_hour (now w) mt = true ->
  json_loads (strip text) = Some v -> scalar v ->
  resolve dir label w
  = (Raise TypeError,
     set_trace (trace w ++ [EvExists (latest_cache dir);
                            EvGetmtime (latest_cache dir);
                            EvRead (latest_cache dir)]) w).
Proof.
  intros Hl Hf Hfresh Hjson Hv. unfold resolve.
  rewrite (resolve_symbolic _ _ dir label offset w Hl). cbn [bind].
  rewrite (cache_hit _ _ dir w (NFile text mt mode) Hf Hfresh), Hjson.
  destruct Hv as [-> | [[b ->] | [q ->]]]; reflexivity.
Qed.

(** X11. The refresh makes exactly one access, the request for the release
    listing, whether it returns or raises, and changes nothing else. *)
Theorem X11_refresh_makes_one_request (w : world) :
  snd (from_github w)
  = set_trace (trace w ++ [EvUrlopen BAZEL_RELEASES_URL]) w.
Proof. apply from_github_world. Qed.

End CacheMore.

(** ** Fetching the binary *)

Section Fetch.

Variable repr : value -> string.

Let download := download_bazel_into_directory repr.

(** The file name depends on the platform only. *)
Lemma determine_bazel_filename_platform (version : value) (w w' : world) :
  machine w' = machine w -> system w' = system w ->
  fst (determine_bazel_filename repr version w')
  = fst (determine_bazel_filename repr version w)
  /\ snd (determine_bazel_filename repr version w') = w'.
Proof.
  intros Hm Hs. unfold determine_bazel_filename, normalized_machine_arch_name.
  mrun. rewrite Hm.
  repeat (match goal with
          | |- context [if ?b then _ else _] => destruct b
          end; mrun; rewrite ?Hs); auto.
Qed.

Lemma determine_bazel_filename_world (version : value) (w : world) :
  snd (determine_bazel_filename repr version w) = w.
Proof. now apply (determine_bazel_filename_platform version w w). Qed.

(** X12. Nothing is looked at or fetched for a platform that is not
    supported or for a version the URL pattern rejects: the call raises
    with the world unchanged. *)
Theorem X12_download_fails_before_any_access
  (version : value) (directory : string) (w : world) (e : exn) :
  (fst (determine_bazel_filename repr version w) = Raise e ->
   download version directory w = (Raise e, w))
  /\ (forall f, fst (determine_bazel_filename repr version w) = Ok f ->
                determine_url version f = Raise e ->
                download version directory w = (Raise e, w)).
Proof.
  pose proof (determine_bazel_filename_world version w) as Hw.
  unfold download, download_bazel_into_directory. cbn [bind].
  destruct (determine_bazel_filename repr version w) as [[f|e0] w0];
    cbn [fst snd] in *; subst w0; split.
  - discriminate.
  - intros f' [= <-] Hu. rewrite Hu. reflexivity.
  - now intros [= ->].
  - discriminate.
Qed.

(** X13. A file that is already at the destination is taken as it is:
    no request is made, its contents and modification time stay, and its
    permission bits become 0755. *)
Theorem X13_download_reuses_existing_file
  (version : value) (directory f url d : string) (t : float) (m : N)
  (w : world) :
  fst (determine_bazel_filename repr version w) = Ok f ->
  determine_url version f = Ok url ->
  fs w !! os_path_join directory f = Some (NFile d t m) ->
  download version directory w
  = (Ok (os_path_join directory f),
     set_fs (<[os_path_join directory f := NFile d t 493%N]> (fs w))
       (set_trace (trace w ++ [EvExists (os_path_join directory f);
                               EvChmod (os_path_join directory f) 493%N]) w)).
Proof.
  intros Hf Hu Hd.
  pose proof (determine_bazel_filename_world version w) as Hw.
  unfold download, download_bazel_into_directory. cbn [bind].
  destruct (determine_bazel_filename repr version w) as [[f0|e0] w0];
    cbn [fst snd] in *; [|discriminate]. injection Hf as ->. subst w0.
  rewrite Hu. mrun. rewrite Hd, is_Some_true. cbn [negb]. mrun. rewrite Hd. mrun.
  now rewrite <- app_assoc.
Qed.


(** X15. When no file is at the destination and the URL cannot be
    fetched, the call raises the network error and no file is created. *)
Theorem X15_failed_download_creates_no_file
  (version : value) (directory f url : string) (w : world) :
  fst (determine_bazel_filename repr version w) = Ok f ->
  determine_url version f = Ok url ->
  fs w !! os_path_join directory f = None ->
  web w !! url = None ->
  download version directory w
  = (Raise URLError,
     set_trace
       (trace w ++ [EvExists (os_path_join directory f);
                    EvStderr ("Downloading " +:+ url +:+ "..." +:+ newline);
                    EvUrlopen url]) w).
Proof.
  intros Hf Hu Hd Hweb.
  pose proof (determine_bazel_filename_world version w) as Hw.
  unfold download, download_bazel_into_directory. cbn [bind].
  destruct (determine_bazel_filename repr version w) as [[f0|e0] w0];
    cbn [fst snd] in *; [|discriminate]. injection Hf as ->. subst w0.
  rewrite Hu. mrun. rewrite Hd, is_Some_false. cbn [negb]. mrun. rewrite Hweb. mrun.
  now rewrite <- !app_assoc.
Qed.

(** A second look at a destination that already has its final form. *)
Lemma download_again
  (version : value) (directory f url : string) (w : world) :
  fst (determine_bazel_filename repr version w) = Ok f ->
  determine_url version f = Ok url ->
  (exists d t, fs w !! os_path_join directory f = Some (NFile d t 493%N))
  \/ (exists t, fs w !! os_path_join directory f = Some (NDir t)) ->
  download version directory w
  = (Ok (os_path_join directory f),
     set_trace (trace w ++ [EvExists (os_path_join directory f);
                            EvChmod (os_path_join directory f) 493%N]) w).
Proof.
  intros Hf Hu Hd.
  pose proof (determine_bazel_filename_world version w) as Hw.
  unfold download, download_bazel_into_directory. cbn [bind].
  destruct (determine_bazel_filename repr version w) as [[f0|e0] w0];
    cbn [fst snd] in *; [|discriminate]. injection Hf as ->. subst w0.
  rewrite Hu. mrun.
  destruct Hd as [(d & t & Hd) | (t & Hd)]; rewrite Hd, is_Some_true;
    cbn [negb]; mrun; rewrite Hd; mrun.
  - rewrite insert_id by exact Hd. rewrite <- app_assoc.
    apply (f_equal (pair _)). now destruct w.
  - now rewrite <- app_assoc.
Qed.

(** X16. Fetching is idempotent: after a successful call, the same call
    returns the same path, requests nothing and leaves the file system as
    it is. *)
Theorem X16_second_download_changes_nothing
  (version : value) (directory p : string) (w w1 : world) :
  download version directory w = (Ok p, w1) ->
  download version directory w1
  = (Ok p, set_trace (trace w1 ++ [EvExists p; EvChmod p 493%N]) w1).
Proof.
  intros H.
  pose proof (determine_bazel_filename_world version w) as Hw.
  pose proof (fun w' => determine_bazel_filename_platform version w w') as Hp.
  unfold download, download_bazel_into_directory in H. cbn [bind] in H.
  destruct (determine_bazel_filename repr version w) as [[f|e0] w0] eqn:Hf;
    cbn [fst snd] in *; [|discriminate]. subst w0.
  destruct (determine_url version f) as [url|e0] eqn:Hu; mrun_in H;
    [|discriminate].
  destruct (fs w !! os_path_join directory f) as [[t|d t m]|] eqn:Hd;
    rewrite ?is_Some_true, ?is_Some_false in H; cbn [negb] in H; mrun_in H.
  - rewrite Hd in H. mrun_in H. injection H as <- <-.
    apply (download_again version directory f url).
    + apply Hp; reflexivity.
    + exact Hu.
    + right. exists t. exact Hd.
  - rewrite Hd in H. mrun_in H. injection H as <- <-.
    apply (download_again version directory f url).
    + apply Hp; reflexivity.
    + exact Hu.
    + left. exists d, t. cbn [fs set_fs set_trace]. apply lookup_insert_eq.
  - destruct (web w !! url) as [body|] eqn:Hweb; mrun_in H; [|discriminate].
    rewrite Hd in H. mrun_in H. rewrite lookup_insert_eq in H. mrun_in H.
    injection H as <- <-.
    apply (download_again version directory f url).
    + apply Hp; reflexivity.
    + exact Hu.
    + left. exists body, (now w). cbn [fs set_fs set_trace].
      apply lookup_insert_eq.
Qed.

End Fetch.

(** ** Directories *)

Lemma split_parts (p : string) :
  p = upto_last_slash p +:+ after_last_slash p.
Proof.
  induction p as [|c p IH]; [reflexivity |]. cbn [upto_last_slash after_last_slash].
  destruct (upto_last_slash p) as [|d r] eqn:E.
  - destruct (is_slash c); reflexivity.
  - cbn [String.append]. f_equal. exact IH.
Qed.

Lemma dirname_le (p : string) :
  String.length (os_path_dirname p) <= String.length (upto_last_slash p).
Proof.
  unfold os_path_dirname. destruct (_ && _); [|lia].
  destruct (rstrip_with_prefix is_slash (upto_last_slash p)) as [r H].
  rewrite H at 2. rewrite append_length. lia.
Qed.

(** The head that [os.makedirs] goes up to is shorter than the name. *)
Lemma makedirs_split_shorter (name head tail : string) :
  makedirs_split name = (head, tail) -> tail <> EmptyString ->
  String.length head < String.length name.
Proof.
  assert (Hs : forall p, after_last_slash p <> EmptyString ->
                         String.length (os_path_dirname p) < String.length p).
  { intros p Hp. pose proof (dirname_le p) as Hle.
    pose proof (split_parts p) as H. apply (f_equal String.length) in H.
    rewrite append_length in H.
    destruct (after_last_slash p); [contradiction | simpl in H; lia]. }
  unfold makedirs_split, os_path_split.
  destruct (String.eqb_spec (after_last_slash name) EmptyString) as [E|E].
  - intros [= <- <-] Ht. apply Hs in Ht.
    pose proof (dirname_le name) as H1.
    pose proof (split_parts name) as H2. apply (f_equal String.length) in H2.
    rewrite append_length in H2. lia.
  - intros [= <- <-] _. now apply Hs.
Qed.

(** Whether [os.makedirs] first goes up: the name has a head and a tail,
    and nothing is at the head. *)
Definition head_missing (w : world) (name : string) : bool :=
  negb (String.eqb (fst (makedirs_split name)) EmptyString)
  && negb (String.eqb (snd (makedirs_split name)) EmptyString)
  && negb (bool_decide (is_Some (fs w !! fst (makedirs_split name)))).

(** The directory that is to hold [name]. *)
Definition holder (w : world) (name : string) : string :=
  if String.eqb (fst (makedirs_split name)) EmptyString then cwd w
  else fst (makedirs_split name).

Lemma makedirs_from_unfold (fuel : nat) (name : string) (w : world) :
  makedirs_from fuel name w
  = if head_missing w name
    then match fuel with
         | S fuel' =>
             bind (try_except (makedirs_from fuel' (fst (makedirs_split name)))
                     (fun e => match e with
                               | FileExistsError => ret tt
                               | _ => raise e
                               end))
               (fun _ => if String.eqb (snd (makedirs_split name)) "."
                         then ret tt else os_mkdir name) w
         | O => os_mkdir name w
         end
    else os_mkdir name w.
Proof.
  unfold head_missing.
  destruct fuel; cbn [makedirs_from]; destruct (makedirs_split name);
    cbn [bind gets fst snd];
    match goal with |- _ = (if ?b then _ else _) => destruct b end;
    reflexivity.
Qed.

Lemma head_missing_shorter (w : world) (name : string) :
  head_missing w name = true ->
  String.length (fst (makedirs_split name)) < String.length name.
Proof.
  unfold head_missing. intros [[_ Ht]%andb_true_iff _]%andb_true_iff.
  destruct (makedirs_split name) as [head tail] eqn:Hs. cbn [fst snd] in *.
  apply (makedirs_split_shorter name head tail Hs).
  intros ->. discriminate.
Qed.

(** The length of the name is fuel enough. *)
Lemma makedirs_from_fuel (n : nat) :
  forall fuel name w,
    String.length name <= n -> String.length name <= fuel ->
    makedirs_from fuel name w = makedirs_from (String.length name) name w.
Proof.
  induction n as [|n IH]; intros fuel name w Hn Hfuel;
    rewrite (makedirs_from_unfold fuel), (makedirs_from_unfold (String.length _));
    destruct (head_missing w name) eqn:Hm; try reflexivity;
    apply head_missing_shorter in Hm; [lia |].
  destruct fuel as [|fuel]; [lia |].
  destruct (String.length name) as [|m] eqn:Hl; [lia |].
  cbn [bind try_except].
  rewrite (IH fuel (fst (makedirs_split name)) w) by lia.
  rewrite (IH m (fst (makedirs_split name)) w) by lia.
  reflexivity.
Qed.

(** From [f] to [f']: the files are kept as they are, the directories are
    still directories, and what is new is a directory. *)
Definition grown (f f' : gmap string node) : Prop :=
  forall p,
    match f !! p with
    | Some (NFile d t m) => f' !! p = Some (NFile d t m)
    | Some (NDir _) => exists t, f' !! p = Some (NDir t)
    | None => f' !! p = None \/ exists t, f' !! p = Some (NDir t)
    end.

Lemma grown_refl (f : gmap string node) : grown f f.
Proof. intros p. destruct (f !! p) as [[t|d t m]|]; eauto. Qed.

Lemma grown_trans (f g h : gmap string node) :
  grown f g -> grown g h -> grown f h.
Proof.
  intros H1 H2 p. specialize (H1 p). specialize (H2 p).
  destruct (f !! p) as [[t|d t m]|].
  - destruct H1 as [t1 E1]. now rewrite E1 in H2.
  - now rewrite H1 in H2.
  - destruct H1 as [E1 | [t1 E1]]; rewrite E1 in H2; [exact H2 | now right].
Qed.

Lemma grown_insert (f : gmap string node) (name : string) (t : float) :
  f !! name = None -> grown f (<[name := NDir t]> f).
Proof.
  intros E p. destruct (String.eqb_spec name p) as [->|Hne].
  - rewrite E, lookup_insert_eq. eauto.
  - rewrite lookup_insert_ne by exact Hne.
    destruct (f !! p) as [[t0|d t0 m]|]; eauto.
Qed.

(** What [os.mkdir] comes to. *)
Lemma os_mkdir_spec (name : string) (w : world) :
  os_mkdir name w
  = if String.eqb name EmptyString then (Raise OSError, w)
    else match fs w !! name with
         | Some _ => (Raise FileExistsError, w)
         | None =>
             match fs w !! holder w name with
             | Some (NDir _) =>
                 (Ok tt, set_fs (<[name := NDir (now w)]> (fs w)) w)
             | _ => (Raise OSError, w)
             end
         end.
Proof. reflexivity. Qed.

(** A run of [os.makedirs] changes the file system only, and only by new
    directories; it raises errors of the operating system only. *)
Definition built (w : world) (out : result unit * world) : Prop :=
  exists f', snd out = set_fs f' w /\ grown (fs w) f'
             /\ match fst out with
                | Ok _ => True
                | Raise e => is_OSError e = true
                end.

Lemma built_os_mkdir (name : string) (w : world) : built w (os_mkdir name w).
Proof.
  rewrite os_mkdir_spec.
  assert (Hsame : forall e, is_OSError e = true -> built w (Raise e, w)).
  { intros e He. exists (fs w). cbn [fst snd].
    split; [now rewrite set_fs_same | split; [apply grown_refl | exact He]]. }
  destruct (String.eqb name EmptyString); [now apply Hsame |].
  destruct (fs w !! name) eqn:E; [now apply Hsame |].
  destruct (fs w !! holder w name) as [[t|d t m]|]; try now apply Hsame.
  eexists. cbn [fst snd]. split; [reflexivity |]. split; [|exact I].
  now apply grown_insert.
Qed.

Lemma built_trans (w : world) (f1 : gmap string node)
  (out : result unit * world) :
  grown (fs w) f1 -> built (set_fs f1 w) out -> built w out.
Proof.
  intros Hg (f' & Hw & Hg' & He). exists f'. split; [|split].
  - rewrite Hw. reflexivity.
  - exact (grown_trans _ _ _ Hg Hg').
  - exact He.
Qed.

Lemma built_makedirs_from (fuel : nat) :
  forall name w, built w (makedirs_from fuel name w).
Proof.
  induction fuel as [|fuel IH]; intros name w; rewrite makedirs_from_unfold;
    destruct (head_missing w name); try apply built_os_mkdir.
  cbn [bind try_except].
  destruct (IH (fst (makedirs_split name)) w) as (f1 & Hw & Hg & He).
  destruct (makedirs_from fuel (fst (makedirs_split name)) w) as [[u|e] w1];
    cbn [fst snd] in *; subst w1.
  - destruct (String.eqb (snd (makedirs_split name)) ".").
    + exists f1. cbn [ret fst snd]. auto.
    + apply (built_trans w f1); [exact Hg | apply built_os_mkdir].
  - destruct e; cbn [ret raise]; try (exists f1; cbn [fst snd]; now auto).
    destruct (String.eqb (snd (makedirs_split name)) ".").
    + exists f1. cbn [ret fst snd]. auto.
    + apply (built_trans w f1); [exact Hg | apply built_os_mkdir].
Qed.

(** When [os.makedirs] returns, the name is a directory, unless the name
    ends in a dot of its own. *)
Lemma makedirs_from_returns (fuel : nat) (name : string) (w w' : world) :
  makedirs_from fuel name w = (Ok tt, w') ->
  String.eqb (snd (makedirs_split name)) "." = false ->
  fs w' !! name = Some (NDir (now w)).
Proof.
  assert (Hmk : forall w0 w1, now w0 = now w ->
            os_mkdir name w0 = (Ok tt, w1) ->
            fs w1 !! name = Some (NDir (now w))).
  { intros w0 w1 Hn. rewrite os_mkdir_spec.
    destruct (String.eqb name EmptyString); [discriminate |].
    destruct (fs w0 !! name); [discriminate |].
    destruct (fs w0 !! holder w0 name) as [[t|d t m]|]; try discriminate.
    intros [= <-]. cbn [fs set_fs]. rewrite Hn. apply lookup_insert_eq. }
  rewrite makedirs_from_unfold. intros H Hdot.
  destruct (head_missing w name); [|now apply (Hmk w w')].
  destruct fuel as [|fuel]; [now apply (Hmk w w') |].
  cbn [bind try_except] in H. rewrite Hdot in H.
  destruct (built_makedirs_from fuel (fst (makedirs_split name)) w)
    as (f1 & Hw & _ & _).
  destruct (makedirs_from fuel (fst (makedirs_split name)) w) as [[u|e] w1];
    cbn [snd] in Hw; subst w1.
  - now apply (Hmk (set_fs f1 w) w').
  - destruct e; cbn [ret raise] in H; try discriminate.
    now apply (Hmk (set_fs f1 w) w').
Qed.

(** What [maybe_makedirs] comes to, from what [os.makedirs] does. *)
Lemma maybe_makedirs_unfold (path : string) (w : world) :
  maybe_makedirs path w
  = let w0 := set_trace (trace w ++ [EvMakedirs path]) w in
    match makedirs_from (String.length path) path w0 with
    | (Ok u, w1) => (Ok u, w1)
    | (Raise e, w1) =>
        if is_OSError e
        then
          match fs w1 !! path with
          | Some (NDir _) =>
              (Ok tt, set_trace (trace w1 ++ [EvIsdir path]) w1)
          | _ => (Raise e, set_trace (trace w1 ++ [EvIsdir path]) w1)
          end
        else (Raise e, w1)
    end.
Proof.
  unfold maybe_makedirs, os_makedirs, os_path_isdir. mrun.
  destruct (makedirs_from _ _ _) as [[u|e] w1]; [reflexivity |].
  destruct (is_OSError e); mrun; [|reflexivity].
  destruct (fs w1 !! path) as [[t|d t m]|]; reflexivity.
Qed.

(** *** Paths in normal form *)

Definition plain_name (tail : string) : bool :=
  negb (String.eqb tail EmptyString) && negb (String.eqb tail ".")
  && negb (String.eqb tail "..").

(** An absolute path in normal form is [/], or such a path followed by
    one slash, unless it is [/] itself, and a name that is not empty, [.]
    or [..]. *)
Fixpoint normal_from (fuel : nat) (p : string) : bool :=
  String.eqb p "/"
  || match fuel with
     | S fuel' =>
         plain_name (after_last_slash p)
         && String.eqb p (os_path_join (os_path_dirname p) (after_last_slash p))
         && normal_from fuel' (os_path_dirname p)
     | O => false
     end.

Definition normal (p : string) : bool := normal_from (String.length p) p.

Lemma normal_from_inv (fuel : nat) (p : string) :
  normal_from fuel p = true ->
  p = "/"
  \/ (plain_name (after_last_slash p) = true
      /\ exists fuel', normal_from fuel' (os_path_dirname p) = true).
Proof.
  destruct fuel as [|fuel]; cbn [normal_from];
    destruct (String.eqb_spec p "/") as [->|Hne]; auto; cbn [orb];
    [discriminate |].
  intros [[Hn _]%andb_true_iff Hd]%andb_true_iff. right. eauto.
Qed.

Lemma normal_from_nonempty (fuel : nat) (p : string) :
  normal_from fuel p = true -> p <> EmptyString.
Proof. intros H ->. destruct fuel; discriminate. Qed.

(** What [os.makedirs] sees of a path in normal form: the head is the
    directory above, and it is the directory that is to hold the path. *)
Lemma normal_split (fuel : nat) (p : string) :
  normal_from fuel p = true ->
  fst (makedirs_split p) = os_path_dirname p
  /\ os_path_dirname p <> EmptyString
  /\ String.eqb (snd (makedirs_split p)) "." = false
  /\ (p = "/" \/ snd (makedirs_split p) <> EmptyString).
Proof.
  intros H. pose proof (normal_from_nonempty fuel p H) as Hp.
  apply normal_from_inv in H as [-> | [Hn [fuel' Hd]]].
  - repeat split; auto; discriminate.
  - apply normal_from_nonempty in Hd.
    unfold makedirs_split, os_path_split. unfold plain_name in Hn.
    apply andb_true_iff in Hn as [[H1 H2]%andb_true_iff _].
    apply negb_true_iff in H1, H2. rewrite H1. cbn [fst snd].
    repeat split; auto. right. now apply String.eqb_neq.
Qed.

Lemma normal_holder (fuel : nat) (p : string) (w : world) :
  normal_from fuel p = true -> holder w p = os_path_dirname p.
Proof.
  intros H. destruct (normal_split fuel p H) as (Hh & Hne & _).
  unfold holder. rewrite Hh. apply String.eqb_neq in Hne. now rewrite Hne.
Qed.

Lemma normal_head_there (fuel : nat) (p : string) (w : world) :
  normal_from fuel p = true -> is_Some (fs w !! os_path_dirname p) ->
  head_missing w p = false.
Proof.
  intros H Hs. destruct (normal_split fuel p H) as (Hh & _).
  unfold head_missing. rewrite Hh.
  rewrite (bool_decide_eq_true_2 _ Hs). now rewrite andb_false_r.
Qed.

Lemma normal_head_missing (fuel : nat) (p : string) (w : world) :
  normal_from fuel p = true -> p <> "/" ->
  fs w !! os_path_dirname p = None ->
  head_missing w p = true.
Proof.
  intros H Hroot Hnone. destruct (normal_split fuel p H) as (Hh & Hne & _ & Ht).
  destruct Ht as [-> | Ht]; [contradiction |].
  unfold head_missing. rewrite Hh, Hnone.
  apply String.eqb_neq in Hne, Ht. rewrite Hne, Ht. cbn [negb andb].
  apply negb_true_iff, bool_decide_eq_false. intros [x Hx]. discriminate.
Qed.

(** What [maybe_makedirs] comes to when [os.makedirs] does not go up. *)
Lemma maybe_makedirs_flat (path : string) (w : world) :
  head_missing w path = false ->
  maybe_makedirs path w
  = let w0 := set_trace (trace w ++ [EvMakedirs path]) w in
    match os_mkdir path w0 with
    | (Ok u, w1) => (Ok u, w1)
    | (Raise e, w1) =>
        match fs w !! path with
        | Some (NDir _) =>
            (Ok tt, set_trace (trace w ++ [EvMakedirs path; EvIsdir path]) w)
        | _ =>
            (Raise e, set_trace (trace w ++ [EvMakedirs path; EvIsdir path]) w)
        end
    end.
Proof.
  intros Hm. rewrite maybe_makedirs_unfold. cbv zeta.
  rewrite makedirs_from_unfold.
  change (head_missing (set_trace _ w) path) with (head_missing w path).
  rewrite Hm.
  set (w0 := set_trace (trace w ++ [EvMakedirs path]) w).
  pose proof (built_os_mkdir path w0) as (f' & Hw & _ & He).
  assert (Hsame : forall e, fst (os_mkdir path w0) = Raise e ->
                            snd (os_mkdir path w0) = w0).
  { intros e. rewrite os_mkdir_spec.
    destruct (String.eqb path EmptyString); [reflexivity |].
    destruct (fs w0 !! path); [reflexivity |].
    destruct (fs w0 !! holder w0 path) as [[t|d t m]|];
      try reflexivity; discriminate. }
  destruct (os_mkdir path w0) as [[u|e] w1]; [reflexivity |].
  cbn [fst snd] in He, Hsame. rewrite He, (Hsame e eq_refl).
  unfold w0. cbn [fs trace set_trace]. rewrite <- app_assoc.
  destruct (fs w !! path) as [[t|d t m]|]; reflexivity.
Qed.

(** X17. For a path in normal form with the directory above it in place,
    [maybe_makedirs] makes the directory at a free path and nothing else;
    it accepts a directory that is already there, changing nothing; and it
    raises an error of the operating system, changing nothing, when the
    path is taken by a regular file or when what is above the path is a
    regular file. *)
Theorem X17_maybe_makedirs_tolerates_existing_directory
  (path : string) (w : world) :
  normal path = true ->
  let above := os_path_dirname path in
  let called := set_trace (trace w ++ [EvMakedirs path; EvIsdir path]) w in
  (forall t, fs w !! path = None -> fs w !! above = Some (NDir t) ->
     exists w',
       maybe_makedirs path w = (Ok tt, w')
       /\ trace w' = trace w ++ [EvMakedirs path]
       /\ fs w' !! path = Some (NDir (now w))
       /\ grown (fs w) (fs w')
       /\ forall p, p <> path -> fs w !! p = None -> fs w' !! p = None)
  /\ (forall t, fs w !! path = Some (NDir t) -> is_Some (fs w !! above) ->
        maybe_makedirs path w = (Ok tt, called))
  /\ (forall d t m, fs w !! path = Some (NFile d t m) ->
        is_Some (fs w !! above) ->
        maybe_makedirs path w = (Raise FileExistsError, called))
  /\ (forall d t m, fs w !! path = None ->
        fs w !! above = Some (NFile d t m) ->
        maybe_makedirs path w = (Raise OSError, called)).
Proof.
  intros Hn above called. unfold normal in Hn.
  pose proof (normal_from_nonempty _ _ Hn) as Hne.
  apply String.eqb_neq in Hne.
  pose proof (normal_holder _ _ w Hn) as Hh. fold above in Hh.
  pose proof (normal_head_there _ _ w Hn) as Hm. fold above in Hm.
  assert (Hflat : is_Some (fs w !! above) ->
    maybe_makedirs path w
    = match fs w !! path with
      | Some (NDir _) => (Ok tt, called)
      | Some (NFile _ _ _) => (Raise FileExistsError, called)
      | None =>
          match fs w !! above with
          | Some (NDir _) =>
              (Ok tt,
               set_fs (<[path := NDir (now w)]> (fs w))
                 (set_trace (trace w ++ [EvMakedirs path]) w))
          | _ => (Raise OSError, called)
          end
      end).
  { intros Hs. rewrite (maybe_makedirs_flat path w (Hm Hs)). cbv zeta.
    rewrite os_mkdir_spec, Hne. cbn [fs set_trace].
    change (holder (set_trace _ w) path) with (holder w path). rewrite Hh.
    destruct (fs w !! path) as [[t|d t m]|]; try reflexivity.
    destruct (fs w !! above) as [[t|d t m]|]; reflexivity. }
  split; [|split; [|split]].
  - intros t Hfree Ha. rewrite Hflat, Hfree, Ha by (rewrite Ha; eauto).
    eexists. split; [reflexivity |]. cbn [trace fs set_fs set_trace].
    split; [reflexivity |]. split; [apply lookup_insert_eq |].
    split; [now apply grown_insert |].
    intros p Hp Hnone. now rewrite lookup_insert_ne.
  - intros t Hd Hs. now rewrite Hflat, Hd.
  - intros d t m Hf Hs. now rewrite Hflat, Hf.
  - intros d t m Hfree Ha. rewrite Hflat, Hfree, Ha by (rewrite Ha; eauto).
    reflexivity.
Qed.

(** The empty path is no directory to make. *)
Lemma maybe_makedirs_empty (w : world) :
  fs w !! EmptyString = None ->
  maybe_makedirs EmptyString w
  = (Raise OSError,
     set_trace (trace w ++ [EvMakedirs EmptyString; EvIsdir EmptyString]) w).
Proof.
  intros Hf. rewrite maybe_makedirs_flat by reflexivity. cbv zeta.
  rewrite os_mkdir_spec. cbn [String.eqb]. now rewrite Hf.
Qed.

(** One directory is missing above the path: it is made, and then the
    path. *)
Lemma makedirs_one_missing (path : string) (w : world) :
  let head := fst (makedirs_split path) in
  head_missing w path = true -> head_missing w head = false ->
  (exists t, fs w !! holder w head = Some (NDir t)) ->
  fs w !! path = None ->
  String.eqb (snd (makedirs_split path)) "." = false ->
  makedirs_from (String.length path) path w
  = (Ok tt,
     set_fs (<[path := NDir (now w)]> (<[head := NDir (now w)]> (fs w))) w).
Proof.
  intros head Hm Hm' [t Hh] Hfree Hdot.
  pose proof (head_missing_shorter w path Hm) as Hlt. fold head in Hlt.
  assert (Hne : String.eqb head EmptyString = false).
  { unfold head_missing in Hm. fold head in Hm.
    destruct (String.eqb head EmptyString); [discriminate | reflexivity]. }
  assert (Hnone : fs w !! head = None).
  { unfold head_missing in Hm. fold head in Hm.
    apply andb_true_iff in Hm as [_ Hm]. apply negb_true_iff in Hm.
    apply bool_decide_eq_false in Hm.
    destruct (fs w !! head); [destruct Hm; eauto | reflexivity]. }
  assert (Hp : String.eqb path EmptyString = false).
  { destruct path; [simpl in Hlt; lia | reflexivity]. }
  assert (Hd : head <> path) by (intros E; rewrite E in Hlt; lia).
  destruct (String.length path) as [|fuel] eqn:Hl; [lia |].
  rewrite makedirs_from_unfold, Hm. cbn [bind try_except]. fold head.
  rewrite (makedirs_from_unfold fuel head), Hm', os_mkdir_spec.
  rewrite Hne, Hnone, Hh, Hdot, os_mkdir_spec, Hp. cbn [fs set_fs].
  rewrite lookup_insert_ne by exact Hd. rewrite Hfree.
  replace (holder (set_fs (<[head:=NDir (now w)]> (fs w)) w) path) with head
    by (unfold holder; fold head; now rewrite Hne).
  rewrite lookup_insert_eq. reflexivity.
Qed.

(** The file system changes by new directories only, and the accesses
    are the call of [os.makedirs] and, after an error, the test [isdir]. *)
Lemma maybe_makedirs_frame (path : string) (w : world) :
  exists f' evs,
    snd (maybe_makedirs path w) = set_fs f' (set_trace (trace w ++ evs) w)
    /\ grown (fs w) f'
    /\ (evs = [EvMakedirs path] \/ evs = [EvMakedirs path; EvIsdir path]).
Proof.
  rewrite maybe_makedirs_unfold. cbv zeta.
  set (w0 := set_trace (trace w ++ [EvMakedirs path]) w).
  pose proof (built_makedirs_from (String.length path) path w0)
    as (f' & Hw & Hg & He).
  destruct (makedirs_from (String.length path) path w0) as [[[]|e] w1];
    cbn [fst snd] in Hw, He; subst w1.
  - exists f', [EvMakedirs path]. auto.
  - rewrite He. exists f', [EvMakedirs path; EvIsdir path].
    assert (Hshape :
      set_trace (trace (set_fs f' w0) ++ [EvIsdir path]) (set_fs f' w0)
      = set_fs f' (set_trace (trace w ++ [EvMakedirs path; EvIsdir path]) w)).
    { unfold w0. cbn [trace set_fs set_trace]. now rewrite <- app_assoc. }
    destruct (fs (set_fs f' w0) !! path) as [[t|d t m]|]; cbn [snd];
      rewrite Hshape; auto.
Qed.

(** X20. For every path in normal form, [maybe_makedirs] changes the
    file system only by new directories: every file is kept as it is and
    every directory is still one; its accesses are the call of
    [os.makedirs] and, after an error, the test [isdir]. When it returns,
    the path is a directory; when it raises, the error is one of the
    operating system and the path is no directory. A directory that is
    already there is always accepted. A directory that is missing above
    the path is made first, and the path below it. *)
Theorem X20_maybe_makedirs_makes_missing_parents
  (path : string) (w : world) :
  normal path = true ->
  let out := maybe_makedirs path w in
  let above := os_path_dirname path in
  (exists f' evs,
     snd out = set_fs f' (set_trace (trace w ++ evs) w)
     /\ grown (fs w) f'
     /\ (evs = [EvMakedirs path] \/ evs = [EvMakedirs path; EvIsdir path]))
  /\ (fst out = Ok tt -> exists t, fs (snd out) !! path = Some (NDir t))
  /\ (forall e, fst out = Raise e ->
        is_OSError e = true
        /\ forall t, fs (snd out) !! path <> Some (NDir t))
  /\ (forall t, fs w !! path = Some (NDir t) -> fst out = Ok tt)
  /\ (forall t, fs w !! path = None -> fs w !! above = None ->
        fs w !! os_path_dirname above = Some (NDir t) ->
        fst out = Ok tt
        /\ trace (snd out) = trace w ++ [EvMakedirs path]
        /\ fs (snd out) !! above = Some (NDir (now w))
        /\ fs (snd out) !! path = Some (NDir (now w))).
Proof.
  intros Hn out above. subst out. unfold normal in Hn.
  destruct (normal_split _ _ Hn) as (Hhead & _ & Hdot & _).
  fold above in Hhead.
  split; [apply maybe_makedirs_frame |].
  rewrite maybe_makedirs_unfold. cbv zeta.
  set (w0 := set_trace (trace w ++ [EvMakedirs path]) w).
  pose proof (built_makedirs_from (String.length path) path w0)
    as (f' & Hw & Hg & He).
  pose proof (makedirs_from_returns (String.length path) path w0) as Hret.
  assert (Hone : forall t, fs w !! path = None -> fs w !! above = None ->
            fs w !! os_path_dirname above = Some (NDir t) ->
            makedirs_from (String.length path) path w0
            = (Ok tt,
               set_fs (<[path := NDir (now w)]>
                         (<[above := NDir (now w)]> (fs w))) w0)
              /\ above <> path).
  { intros t Hfree Ha Haa.
    assert (Hroot : path <> "/").
    { intros ->. cbn in Ha, Haa. congruence. }
    pose proof (normal_head_missing _ _ w Hn Hroot Ha) as Hm.
    apply normal_from_inv in Hn as [-> | [_ [fuel' Hn']]]; [contradiction |].
    fold above in Hn'.
    pose proof (normal_holder _ _ w Hn') as Hh.
    pose proof (normal_head_there _ _ w Hn') as Hm'.
    pose proof (makedirs_one_missing path w0) as H. cbv zeta in H.
    rewrite Hhead in H. split.
    - apply H; [exact Hm | | | exact Hfree | exact Hdot].
      + apply Hm'. rewrite Haa. eauto.
      + exists t. change (holder w0 above) with (holder w above).
        now rewrite Hh.
    - pose proof (head_missing_shorter w path Hm) as Hlt.
      rewrite Hhead in Hlt. intros E. rewrite E in Hlt. lia. }
  destruct (makedirs_from (String.length path) path w0) as [[[]|e] w1];
    cbn [fst snd] in Hw, He; subst w1.
  - (* os.makedirs returned *)
    split; [|split; [|split]]; cbn [fst snd].
    + intros _. eexists. exact (Hret _ eq_refl Hdot).
    + discriminate.
    + reflexivity.
    + intros t Hfree Ha Haa. split; [reflexivity |].
      split; [reflexivity |]. split; [|exact (Hret _ eq_refl Hdot)].
      destruct (Hone t Hfree Ha Haa) as [Hrun Hd]. injection Hrun as ->.
      cbn [fs set_fs]. rewrite lookup_insert_ne by (intros E; now apply Hd).
      apply lookup_insert_eq.
  - (* os.makedirs raised *)
    rewrite He. cbn [fs set_fs].
    split; [|split; [|split]].
    + intros Hok. destruct (f' !! path) as [[t|d t m]|] eqn:E;
        cbn [fst snd fs set_trace set_fs] in *; try discriminate; eauto.
    + intros e0 Hr. destruct (f' !! path) as [[t|d t m]|] eqn:E;
        cbn [fst snd fs set_trace set_fs] in *; try discriminate;
        injection Hr as <-; (split; [exact He |]); intros t'; rewrite E;
        discriminate.
    + intros t Hd. specialize (Hg path). change (fs w0) with (fs w) in Hg.
      rewrite Hd in Hg. destruct Hg as [t' ->]. reflexivity.
    + intros t Hfree Ha Haa. destruct (Hone t Hfree Ha Haa) as [Hrun _].
      discriminate.
Qed.

(** ** When a URL is derived *)

Lemma span_unique (a b x y : string) :
  all_chars is_digit a = true -> all_chars is_digit b = true ->
  head_is is_digit x = false -> head_is is_digit y = false ->
  a +:+ x = b +:+ y -> a = b /\ x = y.
Proof.
  revert b. induction a as [|c a IH]; intros [|d b]; simpl.
  - auto.
  - intros _ [Hd _]%andb_true_iff Hx _ ->. simpl in Hx. congruence.
  - intros [Hc _]%andb_true_iff _ _ Hy <-. simpl in Hy. congruence.
  - intros [_ Ha]%andb_true_iff [_ Hb]%andb_true_iff Hx Hy [= -> H].
    destruct (IH b Ha Hb Hx Hy H) as [-> ->]. auto.
Qed.

(** X18. A URL is derived exactly for the versions that show a dot right
    after their leading digits, of which there may be none: for these the
    URL is made of a prefix of the version as base and of the segment that
    the rest gives; for every other string the call raises
    [AttributeError]. *)
Theorem X18_url_exactly_for_dot_after_digits (v f : string) :
  ((exists d rest, all_chars is_digit d = true /\ v = d +:+ "." +:+ rest) ->
   exists base tail,
     v = base +:+ tail
     /\ determine_url (VStr v) f = Ok (url_of base (segment tail) f))
  /\ (~ (exists d rest, all_chars is_digit d = true /\ v = d +:+ "." +:+ rest) ->
      determine_url (VStr v) f = Raise AttributeError).
Proof.
  destruct (version_shapes v)
    as [(d1 & tail & -> & H1 & Ht & Hdot)
       | [(d1 & d2 & tail & -> & H1 & H2 & Ht & Hdot)
         | (d1 & d2 & d3 & tail & -> & H1 & H2 & H3 & Ht)]]; split.
  - intros (d & rest & Hd & E).
    apply (span_unique d1 d tail ("." +:+ rest)) in E as [_ ->];
      auto; discriminate.
  - intros _. unfold determine_url.
    now rewrite (url_match_none d1 tail H1 Ht Hdot).
  - intros _. exists (d1 +:+ "." +:+ d2), tail. split.
    + now rewrite !append_assoc.
    + apply determine_url_of_match. now apply url_match_two.
  - intros H. destruct H. exists d1, (d2 +:+ tail). auto.
  - intros _. exists (d1 +:+ "." +:+ d2 +:+ "." +:+ d3), tail. split.
    + rewrite !append_assoc. cbn [String.append]. now rewrite ?append_assoc.
    + apply determine_url_of_match. now apply url_match_three.
  - intros H. destruct H. exists d1, (d2 +:+ "." +:+ d3 +:+ tail). auto.
Qed.

(** ** A literal override never asks for the release listing *)

Definition not_listing (e : event) : bool :=
  match e with
  | EvUrlopen u => negb (String.eqb u BAZEL_RELEASES_URL)
  | _ => true
  end.

(** [w'] has the environment of [w], and the events it adds do not request
    the release listing. *)
Definition unlisted (w w' : world) : Prop :=
  environ w' = environ w
  /\ exists evs, trace w' = trace w ++ evs
                 /\ Forall (fun e => not_listing e = true) evs.

Lemma unlisted_refl (w : world) : unlisted w w.
Proof.
  split; [reflexivity |]. exists []. split; [now rewrite app_nil_r | constructor].
Qed.

Lemma unlisted_trans (a b c : world) :
  unlisted a b -> unlisted b c -> unlisted a c.
Proof.
  intros (E1 & e1 & T1 & F1) (E2 & e2 & T2 & F2). split; [congruence |].
  exists (e1 ++ e2). split; [rewrite T2, T1; now rewrite app_assoc |].
  now apply Forall_app.
Qed.

Lemma Unlisted_log (e : event) :
  not_listing e = true -> Keeps unlisted (log e).
Proof.
  intros He w. split; [reflexivity |]. exists [e].
  split; [reflexivity | now constructor].
Qed.

Lemma Unlisted_set_fs {A} (a : A) (f : gmap string node) :
  Keeps unlisted (fun w => (Ok a, set_fs f w)).
Proof.
  intros w. split; [reflexivity |]. exists [].
  split; [now rewrite app_nil_r | constructor].
Qed.

Lemma Unlisted_p_wait : Keeps unlisted p_wait.
Proof.
  intros w. unfold p_wait. mrun.
  destruct (interrupts w); cbn [snd]; (split; [reflexivity |]);
    exists [EvWait]; split; try reflexivity; now constructor.
Qed.

Ltac unlisted_steps :=
  repeat first
    [ solve [auto]
    | apply (Keeps_ret unlisted unlisted_refl)
    | apply (Keeps_raise unlisted unlisted_refl)
    | apply (Keeps_lift unlisted unlisted_refl)
    | apply (Keeps_gets unlisted unlisted_refl)
    | apply Unlisted_set_fs
    | apply Unlisted_log; reflexivity
    | apply (Keeps_bind unlisted unlisted_trans); [|intros ?]
    | apply (Keeps_try_except unlisted unlisted_trans); [|intros ?]
    | match goal with
      | |- Keeps unlisted (match ?x with _ => _ end) => destruct x
      | |- Keeps unlisted (if ?b then _ else _) => destruct b
      end ].

(** A derived URL is on the download host, not the release listing. *)
Lemma determine_url_not_listing (version : value) (f url : string) :
  determine_url version f = Ok url ->
  String.eqb url BAZEL_RELEASES_URL = false.
Proof.
  unfold determine_url. destruct version as [| | |v| |]; try discriminate.
  destruct (Re.re_match URL_PATTERN v) as [m|]; [|discriminate].
  destruct (Re.groups URL_PATTERN m) as [|g1 [|g2 [|g3 gs]]]; try discriminate.
  intros [= <-]. reflexivity.
Qed.

Section Offline.

Variable json_loads : string -> option value.
Variable json_dumps : value -> string.
Variable repr : value -> string.

Lemma Unlisted_maybe_makedirs path : Keeps unlisted (maybe_makedirs path).
Proof.
  intros w.
  destruct (maybe_makedirs_frame path w) as (f' & evs & -> & _ & Hevs).
  split; [reflexivity |]. exists evs. split; [reflexivity |].
  destruct Hevs as [-> | ->]; repeat constructor.
Qed.

Lemma Unlisted_download version directory :
  Keeps unlisted (download_bazel_into_directory repr version directory).
Proof.
  unfold download_bazel_into_directory.
  apply (Keeps_bind unlisted unlisted_trans).
  { unfold determine_bazel_filename, normalized_machine_arch_name.
    unlisted_steps. }
  intros f. apply (Keeps_bind_lift unlisted unlisted_refl). intros url Hu.
  apply determine_url_not_listing in Hu.
  assert (Hurl : Keeps unlisted (urlopen_read url)).
  { unfold urlopen_read. apply (Keeps_bind unlisted unlisted_trans).
    - apply Unlisted_log. cbn [not_listing]. now rewrite Hu.
    - intros _. unlisted_steps. }
  unfold os_path_exists, os_chmod, write_file. unlisted_steps.
Qed.

Lemma Unlisted_wait_loop fuel : Keeps unlisted (wait_loop fuel).
Proof.
  pose proof Unlisted_p_wait.
  induction fuel as [|fuel IH]; cbn [wait_loop]; unlisted_steps.
Qed.

Lemma Unlisted_execute_bazel fuel path argv :
  Keeps unlisted (execute_bazel fuel path argv).
Proof.
  pose proof (Unlisted_wait_loop fuel).
  unfold execute_bazel, popen. unlisted_steps.
Qed.

(** X19. With the override set to a label that does not contain [latest],
    a whole run never requests the release listing, whatever else happens:
    the only request it can make is the download of the binary. *)
Theorem X19_literal_override_never_requests_listing
  (fuel : nat) (argv : option (list string)) (v : string) (w : world) :
  environ w !! "USE_BAZEL_VERSION" = Some v -> str_in "latest" v = false ->
  exists evs,
    trace (snd (main json_loads json_dumps repr fuel argv w)) = trace w ++ evs
    /\ Forall (fun e => e <> EvUrlopen BAZEL_RELEASES_URL) evs.
Proof.
  intros Henv Hlit.
  assert (H : unlisted w (snd (main json_loads json_dumps repr fuel argv w))).
  { unfold main. cbn [bind].
    destruct ((match argv with Some a => ret a | None => gets sys_argv end) w)
      as [[args|e] w0] eqn:Ha.
    2: { destruct argv; discriminate. }
    assert (w0 = w) as -> by (destruct argv; now injection Ha).
    cbn [gets].
    pose proof (Unlisted_maybe_makedirs
                  (default (os_path_join (home w) ".bazelisk")
                     (environ w !! "BAZELISK_HOME")) w) as H1.
    destruct (maybe_makedirs _ w) as [[u|e] w1]; cbn [snd] in *; [|exact H1].
    apply (unlisted_trans w w1); [exact H1 |]. destruct H1 as [He1 _].
    unfold decide_which_bazel_version_to_use at 1. cbn [bind gets].
    rewrite He1, Henv. cbn [ret].
    unfold resolve_version_label_to_number at 1. rewrite Hlit. cbn [ret].
    pose proof (Unlisted_maybe_makedirs).
    pose proof (Unlisted_download).
    pose proof (Unlisted_execute_bazel).
    assert (Hrest : forall d a,
      Keeps unlisted
        (bind (maybe_makedirs (os_path_join d "bin"))
           (fun _ =>
              bind (download_bazel_into_directory repr (VStr v)
                      (os_path_join d "bin"))
                (fun p => execute_bazel fuel p (drop 1 a)))))
      by (intros; unlisted_steps).
    apply Hrest. }
  destruct H as (_ & evs & Ht & Hf). exists evs. split; [exact Ht |].
  eapply Forall_impl; [exact Hf |]. intros e He ->.
  cbn [not_listing] in He. now rewrite String.eqb_refl in He.
Qed.

End Offline.

(** ** Worked examples of the further properties *)

(** The network is down. *)
Definition offline_world : world := with_web ∅ stale_world.

Definition sample_bin : string := "/home/user/.bazelisk/bin".

(** The world after the pinned version was fetched. *)
Definition fetched_world : world :=
  snd (download_bazel_into_directory sample_repr (VStr "4.5.6") sample_bin
         sample_world).

(** Codecs that read every text as the empty list, or as [null]. *)
Definition empty_loads (s : string) : option value := Some (VList []).
Definition null_loads (s : string) : option value := Some VNone.

Lemma offline_cache_stale : cache_miss sample_dir offline_world.
Proof.
  right. exists (NFile sample_cache_text (seconds 1000) 420%N).
  split; reflexivity.
Qed.

Lemma X3_pinned_version_is_trimmed_text_witness :
  exists v l r,
    fst (decide_which_bazel_version_to_use sample_world) = Ok v
    /\ "  4.5.6" +:+ newline = l +:+ v +:+ r
    /\ all_chars is_space l = true /\ all_chars is_space r = true
    /\ head_is is_space v = false /\ last_is is_space v = false.
Proof.
  refine (X3_pinned_version_is_trimmed_text sample_world "/home/user/project"
            ("  4.5.6" +:+ newline) (seconds 0) 420%N eq_refl sample_root _
            eq_refl).
  discriminate.
Defined.

Lemma X4_labels_of_one_offset_resolve_alike_witness :
  resolve_version_label_to_number sample_loads sample_dumps sample_dir
    "latest-01" sample_world
  = resolve_version_label_to_number sample_loads sample_dumps sample_dir
      "latest-1" sample_world.
Proof.
  refine (X4_labels_of_one_offset_resolve_alike sample_loads sample_dumps
            sample_dir "latest-01" "latest-1" 1 sample_world
            (label_latest_n "01" _ eq_refl) (label_latest_n "1" _ eq_refl));
    discriminate.
Defined.

Lemma X5_final_newline_is_tolerated_witness :
  resolve_version_label_to_number sample_loads sample_dumps sample_dir
    ("latest-1" +:+ newline) sample_world
  = resolve_version_label_to_number sample_loads sample_dumps sample_dir
      "latest-1" sample_world.
Proof.
  refine (X5_final_newline_is_tolerated sample_loads sample_dumps sample_dir
            "latest-1" 1 sample_world (label_latest_n "1" _ eq_refl)).
  discriminate.
Defined.

Lemma X6_refreshed_cache_serves_the_next_lookup_witness :
  fst (get_version_history sample_loads sample_dumps sample_dir
         (with_now (seconds 6000)
            (snd (get_version_history sample_loads sample_dumps sample_dir
                    stale_world))))
  = Ok sample_history.
Proof.
  refine (f_equal fst
            (X6_refreshed_cache_serves_the_next_lookup sample_loads sample_dumps
               sample_dir stale_world _ sample_history (seconds 6000)
               sample_cache_stale _ _ _)).
  - vm_compute. reflexivity.
  - reflexivity.
  - reflexivity.
Defined.

Lemma X7_failed_lookup_writes_nothing_witness :
  exists evs,
    snd (get_version_history sample_loads sample_dumps sample_dir offline_world)
    = set_trace (trace offline_world ++ evs) offline_world.
Proof.
  refine (X7_failed_lookup_writes_nothing sample_loads sample_dumps sample_dir
            offline_world _ URLError _).
  vm_compute. reflexivity.
Defined.

Lemma X8_no_fallback_to_stale_cache_witness :
  fst (get_version_history sample_loads sample_dumps sample_dir offline_world)
  = Raise URLError.
Proof.
  refine (f_equal fst
            (X8_no_fallback_to_stale_cache sample_loads sample_dumps sample_dir
               offline_world offline_cache_stale eq_refl)).
Defined.


Lemma X10_scalar_cache_breaks_symbolic_labels_witness :
  fst (resolve_version_label_to_number null_loads sample_dumps sample_dir
         "latest" sample_world)
  = Raise TypeError.
Proof.
  refine (f_equal fst
            (X10_scalar_cache_breaks_symbolic_labels null_loads sample_dumps
               sample_dir "latest" sample_cache_text 0 (seconds 1000) 420%N
               VNone sample_world label_latest eq_refl sample_cache_fresh
               eq_refl _)).
  now left.
Defined.

Lemma X12_download_fails_before_any_access_witness :
  download_bazel_into_directory sample_repr (VStr "4.5.6") sample_bin
    (with_platform "arm64" "Linux" sample_world)
  = (Raise (UnsupportedArchitecture "arm64"),
     with_platform "arm64" "Linux" sample_world).
Proof.
  refine (proj1 (X12_download_fails_before_any_access sample_repr
                   (VStr "4.5.6") sample_bin
                   (with_platform "arm64" "Linux" sample_world)
                   (UnsupportedArchitecture "arm64")) _).
  reflexivity.
Defined.

Lemma X13_download_reuses_existing_file_witness :
  fst (download_bazel_into_directory sample_repr (VStr "4.5.6") sample_bin
         fetched_world)
  = Ok "/home/user/.bazelisk/bin/bazel-4.5.6-linux-x86_64".
Proof.
  refine (f_equal fst
            (X13_download_reuses_existing_file sample_repr (VStr "4.5.6")
               sample_bin "bazel-4.5.6-linux-x86_64" sample_url
               sample_program (seconds 2000) 493%N fetched_world _ _ _)).
  - reflexivity.
  - reflexivity.
  - vm_compute. reflexivity.
Defined.


Lemma X15_failed_download_creates_no_file_witness :
  fst (download_bazel_into_directory sample_repr (VStr "4.5.6") sample_bin
         (with_web ∅ sample_world))
  = Raise URLError.
Proof.
  refine (f_equal fst
            (X15_failed_download_creates_no_file sample_repr (VStr "4.5.6")
               sample_bin "bazel-4.5.6-linux-x86_64" sample_url
               (with_web ∅ sample_world) _ _ _ _)); reflexivity.
Defined.

Lemma X16_second_download_changes_nothing_witness :
  download_bazel_into_directory sample_repr (VStr "4.5.6") sample_bin
    fetched_world
  = (Ok "/home/user/.bazelisk/bin/bazel-4.5.6-linux-x86_64",
     set_trace
       (trace fetched_world
        ++ [EvExists "/home/user/.bazelisk/bin/bazel-4.5.6-linux-x86_64";
            EvChmod "/home/user/.bazelisk/bin/bazel-4.5.6-linux-x86_64"
              493%N])
       fetched_world).
Proof.
  apply (X16_second_download_changes_nothing sample_repr (VStr "4.5.6")
           sample_bin "/home/user/.bazelisk/bin/bazel-4.5.6-linux-x86_64"
           sample_world fetched_world).
  vm_compute. reflexivity.
Defined.

Lemma X17_maybe_makedirs_tolerates_existing_directory_witness :
  maybe_makedirs sample_dir sample_world
  = (Ok tt,
     set_trace [EvMakedirs sample_dir; EvIsdir sample_dir] sample_world).
Proof.
  refine (proj1 (proj2 (X17_maybe_makedirs_tolerates_existing_directory
                          sample_dir sample_world _))
            (seconds 1000) _ _); try reflexivity.
  eexists. reflexivity.
Defined.

(** A regular file above the path is in the way. *)
Example file_in_the_way :
  fst (maybe_makedirs "/home/user/project/WORKSPACE/sub" sample_world)
  = Raise OSError.
Proof. vm_compute. reflexivity. Qed.

(** Three levels are made, from the top down. *)
Example three_levels :
  let w' := snd (maybe_makedirs "/home/user/x/y/z" sample_world) in
  fst (maybe_makedirs "/home/user/x/y/z" sample_world) = Ok tt
  /\ fs w' !! "/home/user/x" = Some (NDir (seconds 2000))
  /\ fs w' !! "/home/user/x/y" = Some (NDir (seconds 2000))
  /\ fs w' !! "/home/user/x/y/z" = Some (NDir (seconds 2000))
  /\ trace w' = [EvMakedirs "/home/user/x/y/z"].
Proof. vm_compute. repeat split; reflexivity. Qed.

Lemma X20_maybe_makedirs_makes_missing_parents_witness :
  fst (maybe_makedirs "/home/user/x/y" sample_world) = Ok tt
  /\ trace (snd (maybe_makedirs "/home/user/x/y" sample_world))
     = [EvMakedirs "/home/user/x/y"]
  /\ fs (snd (maybe_makedirs "/home/user/x/y" sample_world)) !! "/home/user/x"
     = Some (NDir (seconds 2000))
  /\ fs (snd (maybe_makedirs "/home/user/x/y" sample_world))
       !! "/home/user/x/y"
     = Some (NDir (seconds 2000)).
Proof.
  refine (proj2 (proj2 (proj2 (proj2
            (X20_maybe_makedirs_makes_missing_parents "/home/user/x/y"
               sample_world _))))
            (seconds 0) _ _ _); reflexivity.
Defined.

(** Paths that are not in normal form. *)
Example not_normal :
  normal "/home/user/.bazelisk" = true
  /\ normal "/" = true
  /\ normal "/home/user/" = false
  /\ normal "/home//user" = false
  /\ normal "/home/./user" = false
  /\ normal "/home/../user" = false
  /\ normal "user" = false
  /\ normal EmptyString = false.
Proof. repeat split; reflexivity. Qed.

Lemma X18_url_exactly_for_dot_after_digits_witness :
  exists base tail,
    "0.20.0" = base +:+ tail
    /\ determine_url (VStr "0.20.0") "bazel"
       = Ok (url_of base (segment tail) "bazel").
Proof.
  refine (proj1 (X18_url_exactly_for_dot_after_digits "0.20.0" "bazel") _).
  exists "0", "20.0". split; reflexivity.
Defined.

Lemma X19_literal_override_never_requests_listing_witness :
  exists evs,
    trace (snd (main sample_loads sample_dumps sample_repr 5 None
                  (with_environ {[ "USE_BAZEL_VERSION" := "1.2.3" ]}
                     sample_world)))
    = trace (with_environ {[ "USE_BAZEL_VERSION" := "1.2.3" ]} sample_world)
      ++ evs
    /\ Forall (fun e => e <> EvUrlopen BAZEL_RELEASES_URL) evs.
Proof.
  refine (X19_literal_override_never_requests_listing sample_loads sample_dumps
            sample_repr 5 None "1.2.3"
            (with_environ {[ "USE_BAZEL_VERSION" := "1.2.3" ]} sample_world)
            _ _); reflexivity.
Defined.
